(** * Blender exporter for COLMAP: the export generator of [__init__.py]

    A shallow embedding of [BlenderExporterForColmap.export_dataset]: camera
    selection by collection prefix, the id assignment in sorted name order,
    the OPENCV intrinsics, the pose relabelling, the directory creation and
    the sequence of effects (render, save, progress, model write).

    Conventions.
    - Python [int] is [Z]; Python [str] is [string] (bytes of the UTF-8
      text: byte order on UTF-8 is code point order, so [String.leb] is
      Python's [<=] on [str]).
    - Python [float] arithmetic is an interface, [FloatOps]: the theorems
      that only follow values through the code hold for every carrier; two
      carriers are given, IEEE binary64 ([float], what CPython computes
      with) and exact rationals ([Q]).
    - [mathutils] and the [bpy] rotation-mode setter belong to the host and
      are interfaces too ([Mathutils], [Bpy]).
    - A pathlib path is the list of its components, last component first,
      so that [parent] is the tail and [p / name] is [name :: p].
    - A Python [dict] is a [gmap]; the loop inserts the keys in increasing
      order, so the insertion order is the key order.
    - A run of the generator driven to exhaustion (as [execute_] does) is
      the list of its effects in order, the state it leaves and the
      exception that stopped it, if any.  The file system of that state
      holds what the exporter itself creates through [pathlib]; what the
      host writes ([save_render], [write_model]) stays an effect of the
      trace. *)

From Stdlib Require Import ZArith QArith String Ascii List Lia.
From Stdlib Require Import Sorting.Sorted Sorting.Permutation.
From Stdlib Require Import Floats.
From stdpp Require Import base option list gmap strings.
From stdpp Require Import sorting.

Local Open Scope string_scope.
Local Open Scope Z_scope.

(** ** Python numbers *)

(** What the code does with floats: conversion from [int], product,
    quotient, negation, comparison with zero.  Sum and difference are there
    for the reference [Mathutils] instance only. *)
Class FloatOps (F : Type) := {
  float_of_int : Z -> F;
  fadd : F -> F -> F;
  fsub : F -> F -> F;
  fmul : F -> F -> F;
  fdiv : F -> F -> F;
  fneg : F -> F;
  f_is_zero : F -> bool;
  fltb : F -> F -> bool
}.

(** A strictly positive float is not zero. *)
Class FloatOrder (F : Type) `{FloatOps F} : Prop :=
  fpos_nonzero : forall x : F, fltb (float_of_int 0) x = true -> f_is_zero x = false.

(** [float(z)] on binary64, through the unsigned 63-bit conversion (exact
    below 2^53 in absolute value, which covers every resolution and index). *)
Definition binary64_of_Z (z : Z) : float :=
  if z <? 0 then PrimFloat.opp (PrimFloat.of_uint63 (Uint63.of_Z (- z)))
  else PrimFloat.of_uint63 (Uint63.of_Z z).

#[export] Instance binary64_ops : FloatOps float := {|
  float_of_int := binary64_of_Z;
  fadd := PrimFloat.add;
  fsub := PrimFloat.sub;
  fmul := PrimFloat.mul;
  fdiv := PrimFloat.div;
  fneg := PrimFloat.opp;
  f_is_zero := fun x => PrimFloat.eqb x PrimFloat.zero;
  fltb := PrimFloat.ltb
|}.

#[export] Instance rational_ops : FloatOps Q := {|
  float_of_int := inject_Z;
  fadd := Qplus;
  fsub := Qminus;
  fmul := Qmult;
  fdiv := Qdiv;
  fneg := Qopp;
  f_is_zero := fun x => Qeq_bool x 0;
  fltb := fun x y => negb (Qle_bool y x)
|}.

(** Python exceptions the modelled code can raise. *)
Inductive exn :=
| ZeroDivisionError
| FileExistsError
| FileNotFoundError
| NotADirectoryError
| ReferenceError.

(** A value held in a Python list that mixes [int] and [float]. *)
Inductive PyNum (F : Type) :=
| PyInt (n : Z)
| PyFloat (x : F).
Arguments PyInt {F} n.
Arguments PyFloat {F} x.

Section Arithmetic.
Context {F : Type} `{FloatOps F}.

(** [a / b] on floats: [ZeroDivisionError] when [b == 0.0]. *)
Definition float_truediv (a b : F) : exn + F :=
  if f_is_zero b then inl ZeroDivisionError else inr (fdiv a b).

(** [a / n] for a float [a] and an int [n]: [n] is converted, and a zero
    divisor raises. *)
Definition float_truediv_int (a : F) (n : Z) : exn + F :=
  if n =? 0 then inl ZeroDivisionError else inr (fdiv a (float_of_int n)).

(** [a * n] for a float [a] and an int [n]. *)
Definition float_mul_int (a : F) (n : Z) : F := fmul a (float_of_int n).

End Arithmetic.

(** ** mathutils *)

(** [mathutils.Quaternion((w, x, y, z))]: the constructor takes the scalar
    part first. *)
Record Quaternion (F : Type) := mkQuaternion {
  quat_w : F;
  quat_x : F;
  quat_y : F;
  quat_z : F
}.
Arguments mkQuaternion {F}.
Arguments quat_w {F}.
Arguments quat_x {F}.
Arguments quat_y {F}.
Arguments quat_z {F}.

(** [mathutils.Vector] of size 3; [v[0]], [v[1]], [v[2]]. *)
Record Vector (F : Type) := mkVector {
  vec_0 : F;
  vec_1 : F;
  vec_2 : F
}.
Arguments mkVector {F}.
Arguments vec_0 {F}.
Arguments vec_1 {F}.
Arguments vec_2 {F}.

(** The three operations of [mathutils] the exporter calls:
    [Quaternion.to_matrix()], [Matrix @ Vector] and unary minus on a
    [Vector]. *)
Class Mathutils (F : Type) := {
  Matrix : Type;
  to_matrix : Quaternion F -> Matrix;
  matmul_vec : Matrix -> Vector F -> Vector F;
  vec_neg : Vector F -> Vector F
}.

(** Reference instance: the rotation matrix of a quaternion and the
    row-by-column product, computed with the carrier's own arithmetic. *)
Section ReferenceMathutils.
Context {F : Type} `{FloatOps F}.

Definition two : F := float_of_int 2.
Definition one : F := float_of_int 1.

Definition ref_to_matrix (q : Quaternion F) : Vector F * Vector F * Vector F :=
  let w := quat_w q in
  let x := quat_x q in
  let y := quat_y q in
  let z := quat_z q in
  (mkVector (fsub one (fmul two (fadd (fmul y y) (fmul z z))))
            (fmul two (fsub (fmul x y) (fmul w z)))
            (fmul two (fadd (fmul x z) (fmul w y))),
   mkVector (fmul two (fadd (fmul x y) (fmul w z)))
            (fsub one (fmul two (fadd (fmul x x) (fmul z z))))
            (fmul two (fsub (fmul y z) (fmul w x))),
   mkVector (fmul two (fsub (fmul x z) (fmul w y)))
            (fmul two (fadd (fmul y z) (fmul w x)))
            (fsub one (fmul two (fadd (fmul x x) (fmul y y))))).

Definition dot (a b : Vector F) : F :=
  fadd (fadd (fmul (vec_0 a) (vec_0 b)) (fmul (vec_1 a) (vec_1 b)))
       (fmul (vec_2 a) (vec_2 b)).

Definition ref_matmul_vec (m : Vector F * Vector F * Vector F) (v : Vector F)
  : Vector F :=
  let '(r0, r1, r2) := m in mkVector (dot r0 v) (dot r1 v) (dot r2 v).

Definition ref_vec_neg (v : Vector F) : Vector F :=
  mkVector (fneg (vec_0 v)) (fneg (vec_1 v)) (fneg (vec_2 v)).

#[export] Instance reference_mathutils : Mathutils F := {|
  Matrix := Vector F * Vector F * Vector F;
  to_matrix := ref_to_matrix;
  matmul_vec := ref_matmul_vec;
  vec_neg := ref_vec_neg
|}.

End ReferenceMathutils.

(** ** The host scene *)

(** What the host keeps for an object's rotation besides the quaternion
    (Euler angles, axis and angle), and the conversion it runs when
    [rotation_mode] is assigned: from the values under the old mode to the
    values under the new one. *)
Class Bpy (F : Type) := {
  RotationData : Type;
  rotMode_change_values :
    string -> string -> Quaternion F * RotationData -> Quaternion F * RotationData
}.

(** Reference instance: a host that keeps nothing besides the quaternion and
    leaves it alone on a mode change. *)
#[export] Instance quaternion_only_host (F : Type) : Bpy F := {|
  RotationData := unit;
  rotMode_change_values := fun _ _ qr => qr
|}.

(** ** Paths and the file system ([pathlib]) *)

(** A path is the list of its components, last component first. *)
Abbreviation Path := (list string).

(** [p / name]. *)
Definition path_join (p : Path) (name : string) : Path := name :: p.

Inductive node := Dir | File.

(** The entries below the root; the root [[]] is always a directory. *)
Abbreviation FS := (gmap (list string) node).

Definition path_exists (fs : FS) (p : Path) : bool :=
  match p with
  | [] => true
  | _ => match fs !! p with Some _ => true | None => false end
  end.

Definition is_dir (fs : FS) (p : Path) : bool :=
  match p with
  | [] => true
  | _ => match fs !! p with Some Dir => true | _ => false end
  end.

Inductive os_error := EEXIST | ENOENT | ENOTDIR.

(** [os.mkdir(p)]: the entry must be new and its parent a directory. *)
Definition os_mkdir (p : Path) (fs : FS) : os_error + FS :=
  match p with
  | [] => inl EEXIST
  | _ :: parent =>
      match fs !! p with
      | Some _ => inl EEXIST
      | None =>
          if is_dir fs parent then inr (<[p := Dir]> fs)
          else if path_exists fs parent then inl ENOTDIR
          else inl ENOENT
      end
  end.

Definition exn_of_os_error (e : os_error) : exn :=
  match e with
  | EEXIST => FileExistsError
  | ENOENT => FileNotFoundError
  | ENOTDIR => NotADirectoryError
  end.

(** [Path.mkdir(parents=True, exist_ok=True)], as pathlib writes it: try
    [os.mkdir]; on a missing parent create the parent the same way and try
    again; any other [OSError] is swallowed when the path is a directory. *)
Fixpoint mkdir (p : Path) (fs : FS) : exn + FS :=
  match os_mkdir p fs with
  | inr fs' => inr fs'
  | inl ENOENT =>
      match p with
      | [] => inl FileNotFoundError
      | _ :: parent =>
          match mkdir parent fs with
          | inl e => inl e
          | inr fs1 =>
              match os_mkdir p fs1 with
              | inr fs2 => inr fs2
              | inl ENOENT => inl FileNotFoundError
              | inl e => if is_dir fs1 p then inr fs1 else inl (exn_of_os_error e)
              end
          end
      end
  | inl e => if is_dir fs p then inr fs else inl (exn_of_os_error e)
  end.

(** ** Records of the model ([ext/read_write_model.py]) *)

Section Records.
Context {F : Type}.

(** Modelled from the spec: the [Camera] record of [ext/read_write_model.py]
    (section 3: id, model, width, height, params). *)
Record Camera := mkCamera {
  c_id : Z;
  c_model : string;
  c_width : Z;
  c_height : Z;
  c_params : list (PyNum F)
}.

(** Modelled from the spec: the [Image] record of [ext/read_write_model.py]
    (section 3: id, qvec, tvec, camera_id, name, xys, point3D_ids). *)
Record Image := mkImage {
  i_id : Z;
  i_qvec : list F;
  i_tvec : list F;
  i_camera_id : Z;
  i_name : string;
  i_xys : list (F * F);
  i_point3D_ids : list Z
}.

(** Modelled from the spec: the [Point3D] record of
    [ext/read_write_model.py] (section 3: id, xyz, rgb, error, track). *)
Record Point3D := mkPoint3D {
  p_id : Z;
  p_xyz : list F;
  p_rgb : list Z;
  p_error : F;
  p_track : list (Z * Z)
}.

End Records.
Arguments Camera F : clear implicits.
Arguments Image F : clear implicits.
Arguments Point3D F : clear implicits.

(** ** Scene objects *)

Section Scene.
Context {F : Type} `{Bpy F}.

(** [cam.data]: the lens and sensor of a camera. *)
Record CameraData := mkCameraData {
  lens : F;
  sensor_width : F;
  sensor_height : F
}.

(** A scene object.  [users_collection] holds the names of the collections
    the object is linked to. *)
Record BObject := mkBObject {
  type : string;
  name_full : string;
  users_collection : list string;
  data : CameraData;
  rotation_mode : string;
  rotation_quaternion : Quaternion F;
  rotation_data : RotationData;
  location : Vector F
}.

(** [obj.rotation_mode = mode]: the host converts the rotation values from
    the old mode to the new one, then stores the mode. *)
Definition set_rotation_mode (mode : string) (obj : BObject) : BObject :=
  let converted :=
    rotMode_change_values (rotation_mode obj) mode
      (rotation_quaternion obj, rotation_data obj) in
  {| type := type obj;
     name_full := name_full obj;
     users_collection := users_collection obj;
     data := data obj;
     rotation_mode := mode;
     rotation_quaternion := fst converted;
     rotation_data := snd converted;
     location := location obj |}.

(** [scene.render]. *)
Record RenderSettings := mkRenderSettings {
  resolution_x : Z;
  resolution_y : Z;
  resolution_percentage : Z
}.

(** The scene: its objects (a reference to an object is its position in
    [objects]), the render settings and the active camera. *)
Record Scene := mkScene {
  objects : list BObject;
  render : RenderSettings;
  camera : option nat
}.

Definition set_objects (objs : list BObject) (sc : Scene) : Scene :=
  {| objects := objs; render := render sc; camera := camera sc |}.

Definition set_camera (ref : nat) (sc : Scene) : Scene :=
  {| objects := objects sc; render := render sc; camera := Some ref |}.

End Scene.
Arguments CameraData F : clear implicits.
Arguments BObject F {_}.
Arguments Scene F {_}.

(** ** Effects of a run *)

Section Events.
Context {F : Type}.

Inductive Event :=
| EPrint (msg : string)
| EPrintDryRunRender (name : string) (collections : list string)
| EPrintDryRunWrite (output_dir : Path) (output_format : string)
| ESetSceneCamera (ref : nat)
| ERender
| ESaveRender (filepath : Path)
| EYield (progress : F)
| EWriteModel (cameras : gmap Z (Camera F)) (images : gmap Z (Image F))
              (points3D : gmap Z (Point3D F)) (path : Path) (ext : string).

End Events.
Arguments Event F : clear implicits.

(** ** [export_dataset] *)

(** Python's [sorted(l, key=...)] on string keys: the stable sort.  Insertion
    from the right puts an element before the first element of the sorted
    tail whose key is not smaller, so elements with equal keys keep their
    order. *)
Section Sorted.
Context {A : Type} (key : A -> string).

Fixpoint insert_sorted (x : A) (l : list A) : list A :=
  match l with
  | [] => [x]
  | y :: l' =>
      if String.leb (key x) (key y) then x :: l else y :: insert_sorted x l'
  end.

Definition sorted (l : list A) : list A := foldr insert_sorted [] l.

(** The order of the keys: Python's [<=] on the key strings. *)
Definition key_le (x y : A) : Prop := String.leb (key x) (key y) = true.

End Sorted.

(** [enumerate(l)]. *)
Fixpoint enumerate_from {A : Type} (start : Z) (l : list A) : list (Z * A) :=
  match l with
  | [] => []
  | x :: l' => (start, x) :: enumerate_from (start + 1) l'
  end.

Definition enumerate {A : Type} (l : list A) : list (Z * A) := enumerate_from 0 l.

(** The module constant. *)
Definition DRY_RUN : bool := false.

Section Exporter.
Context {F : Type} `{FloatOps F} `{Mathutils F} `{Bpy F}.

(** The loop over [obj.users_collection] with its [break]: true when some
    collection name starts with ["colmap_"]. *)
Definition in_colmap_collection (obj : BObject F) : bool :=
  existsb (fun name => String.prefix "colmap_" name) (users_collection obj).

(** The loop over [scene.objects] that fills [scene_cameras]; each selected
    object is kept with its reference. *)
Fixpoint select_cameras (ref : nat) (objs : list (BObject F))
  : list (nat * BObject F) :=
  match objs with
  | [] => []
  | obj :: rest =>
      if String.eqb (type obj) "CAMERA" && in_colmap_collection obj
      then (ref, obj) :: select_cameras (S ref) rest
      else select_cameras (S ref) rest
  end.

(** [lambda x: x.name_full + ".jpg"]. *)
Definition sort_key (cam : nat * BObject F) : string :=
  name_full (snd cam) ++ ".jpg".

(** The two dictionaries and the scene, as the loop updates them. *)
Record LoopState := mkLoopState {
  cameras : gmap Z (Camera F);
  images : gmap Z (Image F);
  loop_scene : Scene F
}.

(** [format if format in ['.txt', '.bin'] else '.txt']. *)
Definition output_format (format : string) : string :=
  if existsb (String.eqb format) [".txt"; ".bin"] then format else ".txt".

(** One iteration of the loop over the sorted cameras: the effects in
    order, the state after them, and the exception that ended it, if any.
    The divisions by the literal [2] cannot raise; the division of the
    [yield] is by the int [len(scene_cameras) + 1]. *)
Definition camera_iteration (n_cameras : Z) (images_dir : Path)
    (idx : Z) (ref : nat) (st : LoopState)
  : list (Event F) * LoopState * option exn :=
  let scene := loop_scene st in
  match objects scene !! ref with
  | None => ([], st, Some ReferenceError)
  | Some cam =>
      let camera_id := idx + 1 in
      let filename := name_full cam ++ ".jpg" in
      let width := resolution_x (render scene) in
      let height := resolution_y (render scene) in
      let focal_length := lens (data cam) in
      let sensor_width := sensor_width (data cam) in
      let sensor_height := sensor_height (data cam) in
      match float_truediv (float_mul_int focal_length width) sensor_width with
      | inl e => ([], st, Some e)
      | inr fx =>
      match float_truediv (float_mul_int focal_length height) sensor_height with
      | inl e => ([], st, Some e)
      | inr fy =>
          let params :=
            [PyFloat fx; PyFloat fy;
             PyFloat (fdiv (float_of_int width) (float_of_int 2));
             PyFloat (fdiv (float_of_int height) (float_of_int 2));
             PyInt 0; PyInt 0; PyInt 0; PyInt 0] in
          let cameras' :=
            <[camera_id := mkCamera camera_id "OPENCV" width height params]>
              (cameras st) in
          let image_id := camera_id in
          let rotation_mode_bk := rotation_mode cam in
          let cam1 := set_rotation_mode "QUATERNION" cam in
          let cam_rot_orig := rotation_quaternion cam1 in
          let cam_rot :=
            mkQuaternion (quat_x cam_rot_orig) (quat_w cam_rot_orig)
                         (quat_z cam_rot_orig) (fneg (quat_y cam_rot_orig)) in
          let qw := quat_w cam_rot in
          let qx := quat_x cam_rot in
          let qy := quat_y cam_rot in
          let qz := quat_z cam_rot in
          let cam2 := set_rotation_mode rotation_mode_bk cam1 in
          let T := location cam2 in
          let T1 := vec_neg (matmul_vec (to_matrix cam_rot) T) in
          let tx := vec_0 T1 in
          let ty := vec_1 T1 in
          let tz := vec_2 T1 in
          let images' :=
            <[image_id := mkImage image_id [qw; qx; qy; qz] [tx; ty; tz]
                                  camera_id filename [] []]>
              (images st) in
          let scene' :=
            set_camera ref (set_objects (<[ref := cam2]> (objects scene)) scene) in
          let st' := mkLoopState cameras' images' scene' in
          let rendering :=
            if DRY_RUN
            then [EPrintDryRunRender (name_full cam2)
                    (List.filter (fun name => String.prefix "colmap_" name)
                                 (users_collection cam2))]
            else [ERender; ESaveRender (path_join images_dir filename)] in
          match float_truediv_int (float_mul_int (float_of_int 100) idx)
                                  (n_cameras + 1) with
          | inl e => (ESetSceneCamera ref :: rendering, st', Some e)
          | inr progress =>
              ((ESetSceneCamera ref :: rendering ++ [EYield progress])%list, st', None)
          end
      end
      end
  end.

(** The [for idx, cam in enumerate(sorted(...))] loop. *)
Fixpoint camera_loop (n_cameras : Z) (images_dir : Path)
    (items : list (Z * (nat * BObject F))) (st : LoopState)
  : list (Event F) * LoopState * option exn :=
  match items with
  | [] => ([], st, None)
  | (idx, (ref, _)) :: rest =>
      match camera_iteration n_cameras images_dir idx ref st with
      | (ev, st1, Some e) => (ev, st1, Some e)
      | (ev, st1, None) =>
          match camera_loop n_cameras images_dir rest st1 with
          | (evs, st2, r) => ((ev ++ evs)%list, st2, r)
          end
      end
  end.

(** A run of the generator to exhaustion. *)
Record Run := mkRun {
  trace : list (Event F);
  final_scene : Scene F;
  final_fs : FS;
  raised : option exn
}.

(** The generator, run to exhaustion on a scene and a file system.  [scale]
    is computed (a division by the literal [100.0]) and never used. *)
Definition export_dataset (scene : Scene F) (fs : FS) (dirpath : Path)
    (format : string) : Run :=
  let scene_cameras := select_cameras 0 (objects scene) in
  match scene_cameras with
  | [] =>
      mkRun [EPrint "Warning: No cameras found in collections prefixed with 'colmap_'"]
            scene fs None
  | _ :: _ =>
      let output_format := output_format format in
      let scale :=
        fdiv (float_of_int (resolution_percentage (render scene)))
             (float_of_int 100) in
      let output_dir := dirpath in
      let images_dir := path_join output_dir "images" in
      match mkdir output_dir fs with
      | inl e => mkRun [] scene fs (Some e)
      | inr fs' =>
          match camera_loop (Z.of_nat (length scene_cameras)) images_dir
                  (enumerate (sorted sort_key scene_cameras))
                  (mkLoopState ∅ ∅ scene) with
          | (evs, st, Some e) => mkRun evs (loop_scene st) fs' (Some e)
          | (evs, st, None) =>
              let written :=
                if negb DRY_RUN
                then [EWriteModel (cameras st) (images st) ∅ output_dir output_format]
                else [EPrintDryRunWrite output_dir output_format] in
              mkRun (evs ++ written ++ [EYield (float_of_int 100)])%list
                    (loop_scene st) fs' None
          end
      end
  end.

End Exporter.

(** ** Reading a run *)

Section Reading.
Context {F : Type} `{FloatOps F} `{Mathutils F} `{Bpy F}.

(** The calls of [write_model] in a trace, each with its five arguments. *)
Fixpoint model_writes (tr : list (Event F))
  : list (gmap Z (Camera F) * gmap Z (Image F) * gmap Z (Point3D F) * Path * string) :=
  match tr with
  | [] => []
  | EWriteModel cs ims pts p ext :: tr' => (cs, ims, pts, p, ext) :: model_writes tr'
  | _ :: tr' => model_writes tr'
  end.

(** The progress values a trace yields, in order. *)
Fixpoint yields (tr : list (Event F)) : list F :=
  match tr with
  | [] => []
  | EYield v :: tr' => v :: yields tr'
  | _ :: tr' => yields tr'
  end.

(** The cameras the loop runs over, in its order. *)
Definition sorted_cameras (scene : Scene F) : list (nat * BObject F) :=
  sorted sort_key (select_cameras 0 (objects scene)).

(** No selected camera has a zero sensor side: no division of the loop
    raises. *)
Definition sensors_nonzero (scene : Scene F) : Prop :=
  Forall (fun cam : nat * BObject F =>
            f_is_zero (sensor_width (data (snd cam))) = false /\
            f_is_zero (sensor_height (data (snd cam))) = false)
         (select_cameras 0 (objects scene)).

(** The lens and sensor values of every selected camera and the render
    resolution are strictly positive. *)
Definition positive_metadata (scene : Scene F) : Prop :=
  0 < resolution_x (render scene) /\
  0 < resolution_y (render scene) /\
  Forall (fun cam : nat * BObject F =>
            fltb (float_of_int 0) (lens (data (snd cam))) = true /\
            fltb (float_of_int 0) (sensor_width (data (snd cam))) = true /\
            fltb (float_of_int 0) (sensor_height (data (snd cam))) = true)
         (select_cameras 0 (objects scene)).

(** An object takes part in the export: it is a camera and one of its
    collections has a name that starts with ["colmap_"]. *)
Definition selected (obj : BObject F) : Prop :=
  type obj = "CAMERA" /\
  exists name, name ∈ users_collection obj /\ exists rest, name = "colmap_" ++ rest.

(** The object after the mode was switched to quaternions and back. *)
Definition restored (cam : BObject F) : BObject F :=
  set_rotation_mode (rotation_mode cam) (set_rotation_mode "QUATERNION" cam).

(** The [Camera] an iteration stores for [cam] at index [idx]. *)
Definition camera_record (r : RenderSettings) (idx : Z) (cam : BObject F)
  : Camera F :=
  mkCamera (idx + 1) "OPENCV" (resolution_x r) (resolution_y r)
    [PyFloat (fdiv (fmul (lens (data cam)) (float_of_int (resolution_x r)))
                   (sensor_width (data cam)));
     PyFloat (fdiv (fmul (lens (data cam)) (float_of_int (resolution_y r)))
                   (sensor_height (data cam)));
     PyFloat (fdiv (float_of_int (resolution_x r)) (float_of_int 2));
     PyFloat (fdiv (float_of_int (resolution_y r)) (float_of_int 2));
     PyInt 0; PyInt 0; PyInt 0; PyInt 0].

(** The [Image] an iteration stores for [cam] at index [idx]. *)
Definition image_record (idx : Z) (cam : BObject F) : Image F :=
  let q := rotation_quaternion (set_rotation_mode "QUATERNION" cam) in
  let R' := mkQuaternion (quat_x q) (quat_w q) (quat_z q) (fneg (quat_y q)) in
  let T1 := vec_neg (matmul_vec (to_matrix R') (location cam)) in
  mkImage (idx + 1) [quat_w R'; quat_x R'; quat_y R'; quat_z R']
          [vec_0 T1; vec_1 T1; vec_2 T1] (idx + 1) (name_full cam ++ ".jpg") [] [].

(** The scene with another [resolution_percentage]. *)
Definition set_resolution_percentage (pct : Z) (scene : Scene F) : Scene F :=
  {| objects := objects scene;
     render := {| resolution_x := resolution_x (render scene);
                  resolution_y := resolution_y (render scene);
                  resolution_percentage := pct |};
     camera := camera scene |}.

(** The state with another [resolution_percentage] in its scene. *)
Definition with_percentage (pct : Z) (st : LoopState) : LoopState :=
  mkLoopState (cameras st) (images st)
              (set_resolution_percentage pct (loop_scene st)).

(** The effects of one iteration that runs to its [yield]. *)
Definition camera_events (n_cameras : Z) (images_dir : Path) (idx : Z)
    (ref : nat) (cam : BObject F) : list (Event F) :=
  [ESetSceneCamera ref; ERender;
   ESaveRender (path_join images_dir (name_full cam ++ ".jpg"));
   EYield (fdiv (fmul (float_of_int 100) (float_of_int idx))
                (float_of_int (n_cameras + 1)))].

(** The effects of the whole loop when every iteration runs to its [yield]. *)
Definition loop_events (n_cameras : Z) (images_dir : Path)
    (items : list (Z * (nat * BObject F))) : list (Event F) :=
  flat_map (fun item => camera_events n_cameras images_dir (fst item)
                          (fst (snd item)) (snd (snd item))) items.

End Reading.

(** ** Scenario A

    Two cameras ["A"] and ["B"] in the collection ["colmap_set1"], listed
    in the scene as B then A, resolution 800x600, focal length 35 mm, sensor
    36x24 mm; the host keeps quaternions only. *)
Section ScenarioA.
Context {F : Type} `{FloatOps F}.

Definition scenario_camera (name : string) : BObject F :=
  {| type := "CAMERA";
     name_full := name;
     users_collection := ["colmap_set1"];
     data := {| lens := float_of_int 35;
                sensor_width := float_of_int 36;
                sensor_height := float_of_int 24 |};
     rotation_mode := "QUATERNION";
     rotation_quaternion :=
       mkQuaternion (float_of_int 1) (float_of_int 0) (float_of_int 0)
                    (float_of_int 0);
     rotation_data := tt;
     location := mkVector (float_of_int 1) (float_of_int 2) (float_of_int 3) |}.

Definition scenario_A : Scene F :=
  {| objects := [scenario_camera "B"; scenario_camera "A"];
     render := {| resolution_x := 800;
                  resolution_y := 600;
                  resolution_percentage := 100 |};
     camera := None |}.

(** Scenario B: a camera linked to collections whose names do not start
    with the prefix, and a light linked to one that does. *)
Definition scenario_B : Scene F :=
  {| objects :=
       [{| type := "CAMERA";
           name_full := "A";
           users_collection := ["Collection"; "set_colmap_"];
           data := data (scenario_camera "A");
           rotation_mode := "XYZ";
           rotation_quaternion := rotation_quaternion (scenario_camera "A");
           rotation_data := tt;
           location := location (scenario_camera "A") |};
        {| type := "LIGHT";
           name_full := "Sun";
           users_collection := ["colmap_set1"];
           data := data (scenario_camera "A");
           rotation_mode := "XYZ";
           rotation_quaternion := rotation_quaternion (scenario_camera "A");
           rotation_data := tt;
           location := location (scenario_camera "A") |}];
     render := render scenario_A;
     camera := None |}.

End ScenarioA.

(** The run of scenario A into [/tmp/out] on an empty file system, on each
    carrier. *)
Definition run_A_binary64 : Run (F := float) :=
  export_dataset scenario_A ∅ ["out"; "tmp"] ".bin".

Definition run_A_rational : Run (F := Q) :=
  export_dataset scenario_A ∅ ["out"; "tmp"] ".txt".

(** The file system after [mkdir] of [/tmp/out] on an empty one. *)
Definition fs_A : FS := <[["out"; "tmp"] := Dir]> (<[["tmp"] := Dir]> ∅).

(** [100.0 * idx / (n_cameras + 1)] on the rationals. *)
Definition progress_of (n_cameras idx : Z) : Q :=
  (inject_Z 100 * inject_Z idx / inject_Z (n_cameras + 1))%Q.

(** [100.0 * idx / (n_cameras + 1)] on binary64. *)
Definition binary64_progress (n_cameras idx : Z) : float :=
  PrimFloat.div (PrimFloat.mul (binary64_of_Z 100) (binary64_of_Z idx))
                (binary64_of_Z (n_cameras + 1)).

(** Each value is below the next one. *)
Fixpoint increasingb (l : list float) : bool :=
  match l with
  | [] => true
  | x :: l' =>
      match l' with
      | [] => true
      | y :: _ => PrimFloat.ltb x y
      end && increasingb l'
  end.

(** The values the loop yields for [n] cameras, on binary64. *)
Definition progress_values (n : nat) : list float :=
  map (fun i : nat => binary64_progress (Z.of_nat n) (Z.of_nat i)) (seq 0 n).

(** For [n] cameras the values followed by [100.0] increase, and none of
    them equals [100.0]. *)
Definition progress_check (n : nat) : bool :=
  increasingb (progress_values n ++ [100%float]) &&
  forallb (fun v => negb (PrimFloat.eqb v 100%float)) (progress_values n).

(** The largest number of cameras [progress_check] is evaluated for. *)
Definition checked_cameras : nat := 256.

(** ** The operators ([execute_], [execute]) *)

(** The exceptions of the host's class registry. *)
Inductive host_error :=
| ValueError
| RuntimeError.

(** How a call of an operator method ends: the set it returns, or the
    exception that leaves it. *)
Inductive Outcome :=
| Returned (status : gset string)
| Raised (e : exn).

Section Operators.
Context {F : Type} `{FloatOps F} `{Mathutils F} `{Bpy F}.

(** [pathlib.Path(str)]: how the host's directory string is read as a
    path. *)
Context (path_of_string : string -> Path).

(** The operator instance: the [directory] property the file selector
    fills in. *)
Record Operator := mkOperator {
  directory : string
}.

(** What [execute_] does to the host: the three calls on
    [context.window_manager], and the effects of the generator it drives. *)
Inductive OperatorEvent :=
| OProgressBegin (min max : Z)
| OProgressUpdate (value : F)
| OProgressEnd
| OExport (e : Event F).

(** The [for progress in self.export_dataset(...)] loop: the generator's
    effects as they come, and a [progress_update] for each value it
    yields. *)
Definition drive (tr : list (Event F)) : list OperatorEvent :=
  map (fun e => match e with
                | EYield progress => OProgressUpdate progress
                | _ => OExport e
                end) tr.

Record OperatorRun := mkOperatorRun {
  op_trace : list OperatorEvent;
  op_scene : Scene F;
  op_fs : FS;
  op_outcome : Outcome
}.

Definition execute_ (self : Operator) (scene : Scene F) (fs : FS)
    (format : string) : OperatorRun :=
  let dirpath := path_of_string (directory self) in
  if negb (is_dir fs dirpath)
  then mkOperatorRun [] scene fs
         (Returned {["WARNING";
                     "Illegal directory was passed: " ++ directory self]})
  else
    let run := export_dataset scene fs dirpath format in
    match raised run with
    | Some e =>
        mkOperatorRun (OProgressBegin 0 100 :: drive (trace run))
                      (final_scene run) (final_fs run) (Raised e)
    | None =>
        mkOperatorRun (OProgressBegin 0 100 :: drive (trace run) ++ [OProgressEnd])%list
                      (final_scene run) (final_fs run) (Returned {["FINISHED"]})
    end.

(** [BlenderExporterForColmapBinary.execute]. *)
Definition BlenderExporterForColmapBinary_execute (self : Operator)
    (scene : Scene F) (fs : FS) : OperatorRun :=
  execute_ self scene fs ".bin".

(** [BlenderExporterForColmapText.execute]. *)
Definition BlenderExporterForColmapText_execute (self : Operator)
    (scene : Scene F) (fs : FS) : OperatorRun :=
  execute_ self scene fs ".txt".

(** The values handed to [progress_update], in order. *)
Fixpoint progress_updates (tr : list OperatorEvent) : list F :=
  match tr with
  | [] => []
  | OProgressUpdate v :: tr' => v :: progress_updates tr'
  | _ :: tr' => progress_updates tr'
  end.

(** The effects of the generator inside an operator's trace. *)
Fixpoint exported (tr : list OperatorEvent) : list (Event F) :=
  match tr with
  | [] => []
  | OExport e :: tr' => e :: exported tr'
  | _ :: tr' => exported tr'
  end.

End Operators.
Arguments Operator : clear implicits.
Arguments OperatorEvent F : clear implicits.

(** ** More readings of a run *)

Section MoreReading.
Context {F : Type} `{FloatOps F} `{Mathutils F} `{Bpy F}.

(** The paths handed to [save_render], in order. *)
Fixpoint saved_paths (tr : list (Event F)) : list Path :=
  match tr with
  | [] => []
  | ESaveRender p :: tr' => p :: saved_paths tr'
  | _ :: tr' => saved_paths tr'
  end.

(** Everything of an object but its rotation values. *)
Definition identity_of (obj : BObject F)
  : string * string * list string * CameraData F * string * Vector F :=
  (type obj, name_full obj, users_collection obj, data obj,
   rotation_mode obj, location obj).

(** The test of the selection loop. *)
Definition is_selected (obj : BObject F) : bool :=
  String.eqb (type obj) "CAMERA" && in_colmap_collection obj.

(** Neither sensor side of the camera is zero: both divisions of its
    iteration go through. *)
Definition sensor_ok (cam : nat * BObject F) : bool :=
  negb (f_is_zero (sensor_width (data (snd cam)))) &&
  negb (f_is_zero (sensor_height (data (snd cam)))).

(** The cameras before the first one with a zero sensor side. *)
Fixpoint rendered_prefix (l : list (nat * BObject F)) : list (nat * BObject F) :=
  match l with
  | [] => []
  | cam :: l' => if sensor_ok cam then cam :: rendered_prefix l' else []
  end.

(** A [write_model] call without its extension. *)
Definition without_ext
    (w : gmap Z (Camera F) * gmap Z (Image F) * gmap Z (Point3D F) * Path * string)
  : gmap Z (Camera F) * gmap Z (Image F) * gmap Z (Point3D F) * Path :=
  fst w.

End MoreReading.

(** ** Registration ([register], [unregister]) *)

(** The host's registry of classes, [bpy.utils.register_class] and
    [bpy.utils.unregister_class]: each returns the registry it leaves, or
    raises. *)
Class BpyUtils := {
  Classes : Type;
  register_class : string -> Classes -> host_error + Classes;
  unregister_class : string -> Classes -> host_error + Classes
}.

Section Registration.
Context `{BpyUtils}.

(** The registered classes and the draw functions appended to
    [TOPBAR_MT_file_export], by name. *)
Record Host := mkHost {
  classes : Classes;
  file_export_menu : list string
}.

Definition register (h : Host) : host_error + Host :=
  match register_class "BlenderExporterForColmapBinary" (classes h) with
  | inl e => inl e
  | inr c1 =>
      match register_class "BlenderExporterForColmapText" c1 with
      | inl e => inl e
      | inr c2 =>
          inr (mkHost c2 (file_export_menu h ++
                          ["_blender_export_operator_function"])%list)
      end
  end.

Definition unregister (h : Host) : host_error + Host :=
  match unregister_class "BlenderExporterForColmapBinary" (classes h) with
  | inl e => inl e
  | inr c1 =>
      match unregister_class "BlenderExporterForColmapText" c1 with
      | inl e => inl e
      | inr c2 => inr (mkHost c2 (file_export_menu h))
      end
  end.

(** [n] rounds of [register] then [unregister]. *)
Fixpoint reload (n : nat) (h : Host) : host_error + Host :=
  match n with
  | O => inr h
  | S n' =>
      match register h with
      | inl e => inl e
      | inr h1 =>
          match unregister h1 with
          | inl e => inl e
          | inr h2 => reload n' h2
          end
      end
  end.

End Registration.

(** A registry that is the set of registered class names: registering a
    registered class raises [ValueError], unregistering an unregistered one
    raises [RuntimeError]. *)
#[export] Instance set_registry : BpyUtils := {|
  Classes := gset string;
  register_class := fun c s =>
    if decide (c ∈ s) then inl ValueError else inr ({[c]} ∪ s);
  unregister_class := fun c s =>
    if decide (c ∈ s) then inr (s ∖ {[c]}) else inl RuntimeError
|}.

(** Scenario C: scenario A with a third camera ["Aa"], sorted between the
    two, whose sensor width is zero. *)
Definition scenario_C {F : Type} `{FloatOps F} : Scene F :=
  {| objects :=
       [scenario_camera "B";
        {| type := "CAMERA";
           name_full := "Aa";
           users_collection := ["colmap_set1"];
           data := {| lens := float_of_int 35;
                      sensor_width := float_of_int 0;
                      sensor_height := float_of_int 24 |};
           rotation_mode := "QUATERNION";
           rotation_quaternion := rotation_quaternion (scenario_camera "B");
           rotation_data := tt;
           location := location (scenario_camera "B") |};
        scenario_camera "A"];
     render := render scenario_A;
     camera := None |}.

(** The run of scenario C into [/tmp/out] on an empty file system. *)
Definition run_C_binary64 : Run (F := float) :=
  export_dataset scenario_C ∅ ["out"; "tmp"] ".bin".

(** Scenario A with its objects listed the other way round. *)
Definition scenario_A_reversed {F : Type} `{FloatOps F} : Scene F :=
  {| objects := [scenario_camera "A"; scenario_camera "B"];
     render := render scenario_A;
     camera := None |}.

(** A POSIX reading of [Path(str)] for absolute paths without [.] and
    empty components: the components between the slashes, last first. *)
Fixpoint split_slash (s : string) (current : string) (acc : Path) : Path :=
  match s with
  | EmptyString => if String.eqb current "" then acc else current :: acc
  | String c s' =>
      if Ascii.eqb c "/"%char
      then split_slash s' "" (if String.eqb current "" then acc else current :: acc)
      else split_slash s' (current ++ String c EmptyString) acc
  end.

Definition posix_path (s : string) : Path := split_slash s "" [].
(** * Properties *)

(** ** Strings *)

Lemma prefix_spec (p s : string) :
  String.prefix p s = true <-> exists t, s = p ++ t.
Proof.
  revert s. induction p as [|a p IH]; intros s; simpl.
  - destruct s; simpl; split; eauto.
  - destruct s as [|b s]; simpl.
    + split; [discriminate|]. intros [t Ht].
      change (EmptyString = String a (p ++ t)) in Ht. discriminate.
    + destruct (ascii_dec a b) as [->|Hne].
      * rewrite IH. split; intros [t Ht]; exists t.
        -- now rewrite Ht.
        -- change (String b s = String b (p ++ t)) in Ht. congruence.
      * split; [discriminate|]. intros [t Ht].
        change (String b s = String a (p ++ t)) in Ht. congruence.
Qed.

Lemma ascii_compare_N (a b : ascii) :
  Ascii.compare a b = N.compare (N_of_ascii a) (N_of_ascii b).
Proof. reflexivity. Qed.

Lemma string_compare_trans (c : comparison) (s1 s2 s3 : string) :
  c <> Eq ->
  String.compare s1 s2 = c -> String.compare s2 s3 = c -> String.compare s1 s3 = c.
Proof.
  intros Hc. revert s2 s3.
  induction s1 as [|a1 s1 IH]; intros [|a2 s2] [|a3 s3]; simpl; try congruence.
  rewrite !ascii_compare_N.
  destruct (N.compare_spec (N_of_ascii a1) (N_of_ascii a2)) as [E12|L12|G12];
    destruct (N.compare_spec (N_of_ascii a2) (N_of_ascii a3)) as [E23|L23|G23];
    try congruence.
  - rewrite E12, E23, N.compare_refl. apply IH.
  - intros _ H23. rewrite E12, (proj2 (N.compare_lt_iff _ _) L23). exact H23.
  - intros _ H23. rewrite E12, (proj2 (N.compare_gt_iff _ _) G23). exact H23.
  - intros H12 _. rewrite <- E23, (proj2 (N.compare_lt_iff _ _) L12). exact H12.
  - intros H12 _. assert (L13 : (N_of_ascii a1 < N_of_ascii a3)%N) by lia.
    rewrite (proj2 (N.compare_lt_iff _ _) L13). exact H12.
  - intros H12 _. rewrite <- E23, (proj2 (N.compare_gt_iff _ _) G12). exact H12.
  - intros H12 _. assert (G13 : (N_of_ascii a3 < N_of_ascii a1)%N) by lia.
    rewrite (proj2 (N.compare_gt_iff _ _) G13). exact H12.
Qed.

Lemma string_compare_eq_l (s1 s2 s3 : string) :
  String.compare s1 s2 = Eq -> String.compare s1 s3 = String.compare s2 s3.
Proof. intros E. apply String.compare_eq_iff in E. now subst. Qed.

Lemma string_leb_trans (s1 s2 s3 : string) :
  String.leb s1 s2 = true -> String.leb s2 s3 = true -> String.leb s1 s3 = true.
Proof.
  unfold String.leb.
  destruct (String.compare s1 s2) eqn:E12; try discriminate; intros _;
    destruct (String.compare s2 s3) eqn:E23; try discriminate; intros _.
  - now rewrite (string_compare_eq_l _ _ _ E12), E23.
  - now rewrite (string_compare_eq_l _ _ _ E12), E23.
  - apply String.compare_eq_iff in E23. subst. now rewrite E12.
  - now rewrite (string_compare_trans Lt s1 s2 s3).
Qed.

(** ** Sorting *)

Section SortedFacts.
Context {A : Type} (key : A -> string).

Lemma insert_sorted_Permutation (x : A) (l : list A) :
  insert_sorted key x l ≡ₚ x :: l.
Proof.
  induction l as [|y l IH]; simpl; [done|].
  destruct (String.leb (key x) (key y)); [done|].
  rewrite IH. apply Permutation_swap.
Qed.

Lemma sorted_Permutation (l : list A) : sorted key l ≡ₚ l.
Proof.
  induction l as [|x l IH]; simpl; [done|].
  fold (sorted key l). now rewrite insert_sorted_Permutation, IH.
Qed.

Lemma insert_sorted_StronglySorted (x : A) (l : list A) :
  StronglySorted (key_le key) l -> StronglySorted (key_le key) (insert_sorted key x l).
Proof.
  induction 1 as [|y l Hl IH Hy]; simpl.
  - repeat constructor.
  - destruct (String.leb (key x) (key y)) eqn:E.
    + constructor; [by constructor|].
      constructor; [exact E|].
      eapply Forall_impl; [exact Hy|].
      intros z Hz. exact (string_leb_trans _ _ _ E Hz).
    + constructor; [exact IH|].
      rewrite insert_sorted_Permutation. constructor; [|exact Hy].
      destruct (String.leb_total (key x) (key y)) as [E'|E']; [congruence|exact E'].
Qed.

Lemma sorted_StronglySorted (l : list A) : StronglySorted (key_le key) (sorted key l).
Proof.
  induction l as [|x l IH]; simpl; [constructor|].
  now apply insert_sorted_StronglySorted.
Qed.

(** Stability: the elements that share a key keep their order. *)
Lemma insert_sorted_filter (k : string) (x : A) (l : list A) :
  filter (fun y => key y = k) (insert_sorted key x l) =
  filter (fun y => key y = k) (x :: l).
Proof.
  induction l as [|y l IH]; simpl; [done|].
  destruct (String.leb (key x) (key y)) eqn:E; [done|].
  rewrite filter_cons, IH, !filter_cons.
  destruct (decide (key x = k)) as [Hx|Hx]; [|done].
  destruct (decide (key y = k)) as [Hy|Hy]; [|done].
  exfalso. rewrite Hx, Hy in E.
  destruct (String.leb_total k k); congruence.
Qed.

Lemma sorted_stable (k : string) (l : list A) :
  filter (fun y => key y = k) (sorted key l) = filter (fun y => key y = k) l.
Proof.
  induction l as [|x l IH]; simpl; [done|].
  fold (sorted key l). now rewrite insert_sorted_filter, !filter_cons, IH.
Qed.

Lemma sorted_length (l : list A) : length (sorted key l) = length l.
Proof. apply Permutation_length, sorted_Permutation. Qed.

End SortedFacts.

(** ** Selection *)

Section SelectionFacts.
Context {F : Type} `{Bpy F}.

Lemma in_colmap_collection_spec (obj : BObject F) :
  in_colmap_collection obj = true <->
  exists name, name ∈ users_collection obj /\ exists rest, name = "colmap_" ++ rest.
Proof.
  unfold in_colmap_collection. rewrite existsb_exists.
  split; intros (name & Hin & Hp); exists name.
  - split; [now apply list_elem_of_In | now apply prefix_spec].
  - split; [now apply list_elem_of_In | now apply prefix_spec].
Qed.

Lemma selected_test (obj : BObject F) :
  String.eqb (type obj) "CAMERA" && in_colmap_collection obj = true <-> selected obj.
Proof.
  unfold selected. rewrite andb_true_iff, String.eqb_eq, in_colmap_collection_spec.
  reflexivity.
Qed.

Lemma select_cameras_spec (objs : list (BObject F)) (k ref : nat) (obj : BObject F) :
  (ref, obj) ∈ select_cameras k objs <->
  exists i : nat, ref = (k + i)%nat /\ objs !! i = Some obj /\ selected obj.
Proof.
  revert k. induction objs as [|o objs IH]; intros k; simpl.
  - split; [intros Hin; inversion Hin | intros (i & _ & Hi & _); discriminate].
  - destruct (String.eqb (type o) "CAMERA" && in_colmap_collection o) eqn:E.
    + rewrite elem_of_cons, IH. split.
      * intros [Heq | (i & -> & Hi & Hs)].
        -- inversion Heq; subst. exists 0%nat.
           split; [lia|]. split; [done|]. now apply selected_test.
        -- exists (S i). split; [lia|]. now split.
      * intros ([|i] & -> & Hi & Hs).
        -- left. simpl in Hi. inversion Hi; subst. f_equal. lia.
        -- right. exists i. split; [lia|]. now split.
    + rewrite IH. split.
      * intros (i & -> & Hi & Hs). exists (S i). split; [lia|]. now split.
      * intros ([|i] & -> & Hi & Hs).
        -- simpl in Hi. inversion Hi; subst.
           apply selected_test in Hs. congruence.
        -- exists i. split; [lia|]. now split.
Qed.

Lemma select_cameras_lookup (objs : list (BObject F)) (ref : nat) (obj : BObject F) :
  (ref, obj) ∈ select_cameras 0 objs -> objs !! ref = Some obj.
Proof. rewrite select_cameras_spec. now intros (i & -> & Hi & _). Qed.

Lemma select_cameras_NoDup (objs : list (BObject F)) (k : nat) :
  NoDup (fst <$> select_cameras k objs).
Proof.
  revert k. induction objs as [|o objs IH]; intros k; simpl; [constructor|].
  destruct (String.eqb (type o) "CAMERA" && in_colmap_collection o); [|apply IH].
  simpl. constructor; [|apply IH].
  rewrite list_elem_of_fmap. intros ([ref obj] & Href & Hin). simpl in Href. subst ref.
  apply select_cameras_spec in Hin as (i & Hk & _). lia.
Qed.

End SelectionFacts.

(** ** One iteration *)

Section LoopFacts.
Context {F : Type} `{FloatOps F} `{Mathutils F} `{Bpy F}.

Lemma restored_rotation_mode (cam : BObject F) :
  rotation_mode (restored cam) = rotation_mode cam.
Proof. reflexivity. Qed.

Lemma camera_iteration_ok (n_cameras : Z) (images_dir : Path) (idx : Z)
    (ref : nat) (st : LoopState) (cam : BObject F) :
  objects (loop_scene st) !! ref = Some cam ->
  f_is_zero (sensor_width (data cam)) = false ->
  f_is_zero (sensor_height (data cam)) = false ->
  n_cameras + 1 <> 0 ->
  camera_iteration n_cameras images_dir idx ref st =
    (camera_events n_cameras images_dir idx ref cam,
     mkLoopState
       (<[idx + 1 := camera_record (render (loop_scene st)) idx cam]> (cameras st))
       (<[idx + 1 := image_record idx cam]> (images st))
       (set_camera ref
          (set_objects (<[ref := restored cam]> (objects (loop_scene st)))
                       (loop_scene st))),
     None).
Proof.
  intros Hcam Hw Hh Hn. unfold camera_iteration.
  rewrite Hcam. unfold float_truediv, float_truediv_int.
  rewrite Hw, Hh. apply Z.eqb_neq in Hn. rewrite Hn.
  reflexivity.
Qed.

(** The two records an iteration stores once both focal parameters are
    computed, whatever happens at its [yield]. *)
Lemma camera_iteration_records (n_cameras : Z) (images_dir : Path) (idx : Z)
    (ref : nat) (st : LoopState) (cam : BObject F) :
  objects (loop_scene st) !! ref = Some cam ->
  f_is_zero (sensor_width (data cam)) = false ->
  f_is_zero (sensor_height (data cam)) = false ->
  cameras (snd (fst (camera_iteration n_cameras images_dir idx ref st))) !! (idx + 1) =
    Some (camera_record (render (loop_scene st)) idx cam) /\
  images (snd (fst (camera_iteration n_cameras images_dir idx ref st))) !! (idx + 1) =
    Some (image_record idx cam).
Proof.
  intros Hcam Hw Hh. unfold camera_iteration.
  rewrite Hcam. unfold float_truediv. rewrite Hw, Hh.
  destruct (float_truediv_int _ _) as [e|progress]; simpl;
    now rewrite !lookup_insert_eq.
Qed.

(** ** The loop *)

(** What the loop leaves when no division raises: the effects of every
    iteration in order, a record under [idx + 1] for the camera at [idx],
    and nothing touched outside these keys. *)
Lemma camera_loop_ok (n_cameras : Z) (images_dir : Path)
    (l : list (nat * BObject F)) :
  forall (start : Z) (st : LoopState),
  NoDup (fst <$> l) ->
  (forall ref cam, (ref, cam) ∈ l -> objects (loop_scene st) !! ref = Some cam) ->
  Forall (fun cam : nat * BObject F =>
            f_is_zero (sensor_width (data (snd cam))) = false /\
            f_is_zero (sensor_height (data (snd cam))) = false) l ->
  n_cameras + 1 <> 0 ->
  exists st' : LoopState,
    camera_loop n_cameras images_dir (enumerate_from start l) st =
      (loop_events n_cameras images_dir (enumerate_from start l), st', None) /\
    render (loop_scene st') = render (loop_scene st) /\
    (forall (i : nat) ref cam, l !! i = Some (ref, cam) ->
       cameras st' !! (start + Z.of_nat i + 1) =
         Some (camera_record (render (loop_scene st)) (start + Z.of_nat i) cam) /\
       images st' !! (start + Z.of_nat i + 1) =
         Some (image_record (start + Z.of_nat i) cam)) /\
    (forall k : Z, ~ (start < k <= start + Z.of_nat (length l)) ->
       cameras st' !! k = cameras st !! k /\ images st' !! k = images st !! k).
Proof.
  induction l as [|[ref cam] l IH]; intros start st Hnd Hobj Hz Hn.
  - exists st. simpl. repeat split; try done.
  - inversion Hnd as [|? ? Hnotin Hnd']; subst.
    inversion Hz as [|? ? [Hw Hh] Hz']; subst. simpl in Hw, Hh.
    assert (Hcam : objects (loop_scene st) !! ref = Some cam)
      by (apply Hobj; left).
    pose proof (camera_iteration_ok n_cameras images_dir start ref st cam
                  Hcam Hw Hh Hn) as Hit.
    set (st1 := mkLoopState
       (<[start + 1 := camera_record (render (loop_scene st)) start cam]> (cameras st))
       (<[start + 1 := image_record start cam]> (images st))
       (set_camera ref
          (set_objects (<[ref := restored cam]> (objects (loop_scene st)))
                       (loop_scene st)))) in *.
    destruct (IH (start + 1) st1 Hnd') as (st' & Hloop & Hrender & Hin & Hout); try done.
    { intros ref' cam' Hin'. simpl.
      rewrite list_lookup_insert_ne; [apply Hobj; now right|].
      intros ->. apply Hnotin. apply list_elem_of_fmap. now exists (ref', cam'). }
    exists st'. split; [|split; [|split]].
    + simpl. rewrite Hit, Hloop. reflexivity.
    + rewrite Hrender. reflexivity.
    + intros [|i] ref' cam' Hi; simpl in Hi.
      * inversion Hi; subst.
        replace (start + Z.of_nat 0) with start by lia.
        destruct (Hout (start + 1)) as [Hc Him]; [lia|].
        rewrite Hc, Him. simpl. now rewrite !lookup_insert_eq.
      * destruct (Hin i ref' cam' Hi) as [Hc Him].
        replace (start + Z.of_nat (S i)) with (start + 1 + Z.of_nat i) by lia.
        now rewrite Hc, Him.
    + intros k Hk. simpl length in Hk.
      destruct (Hout k) as [Hc Him]; [lia|].
      rewrite Hc, Him. simpl.
      rewrite !lookup_insert_ne by lia. done.
Qed.

Lemma model_writes_app (tr1 tr2 : list (Event F)) :
  model_writes (tr1 ++ tr2) = (model_writes tr1 ++ model_writes tr2)%list.
Proof.
  induction tr1 as [|e tr1 IH]; simpl; [done|].
  destruct e; simpl; now rewrite ?IH.
Qed.

Lemma yields_app (tr1 tr2 : list (Event F)) :
  yields (tr1 ++ tr2) = (yields tr1 ++ yields tr2)%list.
Proof.
  induction tr1 as [|e tr1 IH]; simpl; [done|].
  destruct e; simpl; now rewrite ?IH.
Qed.

Lemma model_writes_loop_events (n_cameras : Z) (images_dir : Path)
    (items : list (Z * (nat * BObject F))) :
  model_writes (loop_events n_cameras images_dir items) = [].
Proof.
  unfold loop_events. induction items as [|item items IH]; simpl; [done|exact IH].
Qed.

Lemma yields_loop_events (n_cameras : Z) (images_dir : Path)
    (items : list (Z * (nat * BObject F))) :
  yields (loop_events n_cameras images_dir items) =
  (fun item => fdiv (fmul (float_of_int 100) (float_of_int (fst item)))
                    (float_of_int (n_cameras + 1))) <$> items.
Proof.
  unfold loop_events. induction items as [|item items IH]; simpl; [done|].
  now rewrite IH.
Qed.

(** ** The run *)

Lemma sorted_cameras_Permutation (scene : Scene F) :
  sorted_cameras scene ≡ₚ select_cameras 0 (objects scene).
Proof. apply sorted_Permutation. Qed.

Lemma sorted_cameras_length (scene : Scene F) :
  length (sorted_cameras scene) = length (select_cameras 0 (objects scene)).
Proof. apply sorted_length. Qed.

(** A run with selected cameras, no zero sensor side and a directory that
    can be made: the effects of the loop, one call of [write_model], the
    last [yield]; the dictionaries hold one record per camera under
    [1..N]. *)
Lemma export_dataset_ok (scene : Scene F) (fs fs' : FS) (dirpath : Path)
    (format : string) :
  select_cameras 0 (objects scene) <> [] ->
  sensors_nonzero scene ->
  mkdir dirpath fs = inr fs' ->
  exists st : LoopState,
    export_dataset scene fs dirpath format =
      mkRun (loop_events (Z.of_nat (length (select_cameras 0 (objects scene))))
                         (path_join dirpath "images")
                         (enumerate (sorted_cameras scene)) ++
             [EWriteModel (cameras st) (images st) ∅ dirpath (output_format format);
              EYield (float_of_int 100)])%list
            (loop_scene st) fs' None /\
    (forall (i : nat) ref cam, sorted_cameras scene !! i = Some (ref, cam) ->
       cameras st !! (Z.of_nat i + 1) =
         Some (camera_record (render scene) (Z.of_nat i) cam) /\
       images st !! (Z.of_nat i + 1) = Some (image_record (Z.of_nat i) cam)) /\
    (forall k : Z,
       ~ (0 < k <= Z.of_nat (length (select_cameras 0 (objects scene)))) ->
       cameras st !! k = None /\ images st !! k = None).
Proof.
  intros Hne Hz Hmk.
  destruct (camera_loop_ok
              (Z.of_nat (length (select_cameras 0 (objects scene))))
              (path_join dirpath "images") (sorted_cameras scene) 0
              (mkLoopState ∅ ∅ scene))
    as (st & Hloop & _ & Hin & Hout).
  - rewrite sorted_cameras_Permutation. apply select_cameras_NoDup.
  - intros ref cam Hin. simpl. apply select_cameras_lookup.
    now rewrite <- sorted_cameras_Permutation.
  - unfold sensors_nonzero in Hz. now rewrite sorted_cameras_Permutation.
  - lia.
  - exists st. split; [|split].
    + unfold export_dataset, sorted_cameras, enumerate in *.
      destruct (select_cameras 0 (objects scene)) as [|c cs] eqn:E; [done|].
      rewrite Hmk, Hloop. reflexivity.
    + intros i ref cam Hi. destruct (Hin i ref cam Hi) as [Hc Him].
      now rewrite Z.add_0_l in Hc, Him.
    + intros k Hk. rewrite sorted_cameras_length in Hout.
      destruct (Hout k) as [Hc Him]; [lia|].
      rewrite Hc, Him. simpl. now rewrite !lookup_empty.
Qed.

(** ** Rotation mode and resolution percentage through the loop *)

Lemma camera_iteration_rotation_mode (n_cameras : Z) (images_dir : Path)
    (idx : Z) (ref : nat) (st : LoopState) :
  rotation_mode <$>
    objects (loop_scene (snd (fst (camera_iteration n_cameras images_dir idx ref st)))) =
  rotation_mode <$> objects (loop_scene st).
Proof.
  unfold camera_iteration.
  destruct (objects (loop_scene st) !! ref) as [cam|] eqn:Hcam; [|done].
  destruct (float_truediv _ _) as [e|fx]; [done|].
  destruct (float_truediv _ _) as [e|fy]; [done|].
  assert (Hmodes :
    rotation_mode <$> <[ref := restored cam]> (objects (loop_scene st)) =
    rotation_mode <$> objects (loop_scene st)).
  { rewrite list_fmap_insert. apply list_insert_id.
    rewrite list_lookup_fmap, Hcam. reflexivity. }
  destruct (float_truediv_int _ _) as [e|progress]; exact Hmodes.
Qed.

Lemma camera_loop_rotation_mode (n_cameras : Z) (images_dir : Path)
    (items : list (Z * (nat * BObject F))) (st : LoopState) :
  rotation_mode <$>
    objects (loop_scene (snd (fst (camera_loop n_cameras images_dir items st)))) =
  rotation_mode <$> objects (loop_scene st).
Proof.
  revert st. induction items as [|[idx [ref cam]] items IH]; intros st; simpl; [done|].
  pose proof (camera_iteration_rotation_mode n_cameras images_dir idx ref st) as Hit.
  destruct (camera_iteration n_cameras images_dir idx ref st) as [[ev st1] [e|]];
    simpl in Hit; [exact Hit|].
  specialize (IH st1).
  destruct (camera_loop n_cameras images_dir items st1) as [[evs st2] r].
  simpl in *. congruence.
Qed.

Lemma camera_iteration_percentage (pct : Z) (n_cameras : Z) (images_dir : Path)
    (idx : Z) (ref : nat) (st : LoopState) :
  camera_iteration n_cameras images_dir idx ref (with_percentage pct st) =
  match camera_iteration n_cameras images_dir idx ref st with
  | (ev, st', r) => (ev, with_percentage pct st', r)
  end.
Proof.
  unfold camera_iteration. simpl.
  destruct (objects (loop_scene st) !! ref) as [cam|]; [|done].
  destruct (float_truediv _ _) as [e|fx]; [done|].
  destruct (float_truediv _ _) as [e|fy]; [done|].
  destruct (float_truediv_int _ _) as [e|progress]; reflexivity.
Qed.

Lemma camera_loop_percentage (pct : Z) (n_cameras : Z) (images_dir : Path)
    (items : list (Z * (nat * BObject F))) (st : LoopState) :
  camera_loop n_cameras images_dir items (with_percentage pct st) =
  match camera_loop n_cameras images_dir items st with
  | (evs, st', r) => (evs, with_percentage pct st', r)
  end.
Proof.
  revert st. induction items as [|[idx [ref cam]] items IH]; intros st; simpl; [done|].
  rewrite camera_iteration_percentage.
  destruct (camera_iteration n_cameras images_dir idx ref st) as [[ev st1] [e|]];
    [done|].
  rewrite IH.
  now destruct (camera_loop n_cameras images_dir items st1) as [[evs st2] r].
Qed.

End LoopFacts.

(** ** Directory creation *)

Lemma mkdir_existing (fs : FS) (p : Path) :
  is_dir fs p = true -> mkdir p fs = inr fs.
Proof.
  destruct p as [|name parent]; simpl; [done|].
  destruct (fs !! (name :: parent)) as [[|]|] eqn:E; try discriminate.
  intros _. reflexivity.
Qed.

Lemma suffix_cons_not (name : string) (p : Path) : ~ (name :: p) `suffix_of` p.
Proof. intros Hs. apply suffix_length in Hs. simpl in Hs. lia. Qed.

(** When no entry on the way to [p] is a regular file, [mkdir] succeeds,
    [p] is a directory afterwards, and only entries on the way to [p] were
    added. *)
Lemma mkdir_creates (p : Path) :
  forall fs : FS,
  (forall a : Path, a `suffix_of` p -> fs !! a <> Some File) ->
  exists fs' : FS,
    mkdir p fs = inr fs' /\
    is_dir fs' p = true /\
    (forall q : Path, ~ q `suffix_of` p -> fs' !! q = fs !! q) /\
    (forall (q : Path) (k : node), fs !! q = Some k -> fs' !! q = Some k).
Proof.
  induction p as [|name parent IH]; intros fs Hfile.
  - exists fs. simpl. done.
  - assert (Hself : fs !! (name :: parent) <> Some File) by (apply Hfile; done).
    destruct (fs !! (name :: parent)) as [[|]|] eqn:E; [|done|].
    + exists fs. split; [|split; [|split]]; try done.
      * apply mkdir_existing. simpl. now rewrite E.
      * simpl. now rewrite E.
    + destruct (IH fs) as (fs1 & Hmk & Hdir & Hsame & Hkeep).
      { intros a Ha. apply Hfile. now apply suffix_cons_r. }
      assert (E1 : fs1 !! (name :: parent) = None)
        by (rewrite Hsame; [exact E | apply suffix_cons_not]).
      assert (Hnew : forall fs0 : FS, fs0 !! (name :: parent) = None ->
                is_dir (<[name :: parent := Dir]> fs0) (name :: parent) = true).
      { intros fs0 _. simpl. now rewrite lookup_insert_eq. }
      destruct (is_dir fs parent) eqn:Hd.
      * exists (<[name :: parent := Dir]> fs). split; [|split; [|split]].
        -- simpl. now rewrite E, Hd.
        -- now apply Hnew.
        -- intros q Hq. apply lookup_insert_ne. intros <-. now apply Hq.
        -- intros q k Hq. rewrite lookup_insert_ne; [done|]. congruence.
      * assert (Hex : path_exists fs parent = false).
        { destruct parent as [|n' parent']; [discriminate|]. simpl in *.
          assert (Hp : fs !! (n' :: parent') <> Some File)
            by (apply Hfile; now apply suffix_cons_r).
          now destruct (fs !! (n' :: parent')) as [[|]|]. }
        exists (<[name :: parent := Dir]> fs1). split; [|split; [|split]].
        -- simpl. rewrite E, Hd, Hex, Hmk. simpl. now rewrite E1, Hdir.
        -- now apply Hnew.
        -- intros q Hq. rewrite lookup_insert_ne by (intros <-; now apply Hq).
           apply Hsame. intros Hs. apply Hq. now apply suffix_cons_r.
        -- intros q k Hq. rewrite lookup_insert_ne by congruence. now apply Hkeep.
Qed.

(** ** The carriers *)

Lemma rational_order : FloatOrder Q.
Proof.
  intros x. simpl. unfold Qeq_bool, Qle_bool. destruct x as [n d]. simpl.
  rewrite negb_true_iff, Z.leb_gt, Z.eqb_neq. lia.
Qed.
#[export] Existing Instance rational_order.

Lemma SFcompare_pos_nonzero (x : SpecFloat.spec_float) :
  SpecFloat.SFltb (SpecFloat.S754_zero false) x = true ->
  SpecFloat.SFeqb x (SpecFloat.S754_zero false) = false.
Proof. destruct x as [s|s| |s m e]; try destruct s; cbv; congruence. Qed.

Lemma binary64_order : FloatOrder float.
Proof.
  intros x. cbn [fltb f_is_zero float_of_int binary64_ops].
  rewrite FloatAxioms.ltb_spec, FloatAxioms.eqb_spec.
  change (Prim2SF (binary64_of_Z 0)) with (SpecFloat.S754_zero false).
  change (Prim2SF PrimFloat.zero) with (SpecFloat.S754_zero false).
  apply SFcompare_pos_nonzero.
Qed.
#[export] Existing Instance binary64_order.

(** * The claims *)

Section Claims.
Context {F : Type} `{FloatOps F} `{Mathutils F} `{Bpy F}.

Lemma select_cameras_nil (objs : list (BObject F)) (k : nat) :
  select_cameras k objs = [] <-> forall obj, obj ∈ objs -> ~ selected obj.
Proof.
  split.
  - intros Hnil obj Hin Hsel. apply list_elem_of_lookup in Hin as [i Hi].
    assert (Hmem : (k + i, obj)%nat ∈ select_cameras k objs)
      by (apply select_cameras_spec; now exists i).
    rewrite Hnil in Hmem. inversion Hmem.
  - intros Hnone. destruct (select_cameras k objs) as [|[ref obj] l] eqn:E; [done|].
    assert (Hmem : (ref, obj) ∈ select_cameras k objs) by (rewrite E; left).
    apply select_cameras_spec in Hmem as (i & _ & Hi & Hsel).
    exfalso. apply (Hnone obj); [|done]. apply list_elem_of_lookup. now exists i.
Qed.

(** C5.  An object of the scene is selected exactly when it is a camera
    linked to at least one collection whose name starts with ["colmap_"];
    and when no object is selected the run prints the warning and ends:
    nothing is rendered, saved or written, the file system and the scene
    are as before, and nothing is raised. *)
Theorem selection_and_empty_export (scene : Scene F) (fs : FS) (dirpath : Path)
    (format : string) :
  (forall (ref : nat) (obj : BObject F),
     objects scene !! ref = Some obj ->
     ((ref, obj) ∈ select_cameras 0 (objects scene) <->
      type obj = "CAMERA" /\
      exists name, name ∈ users_collection obj /\
                   exists rest, name = "colmap_" ++ rest)) /\
  ((forall obj, obj ∈ objects scene -> ~ selected obj) ->
   export_dataset scene fs dirpath format =
     mkRun [EPrint "Warning: No cameras found in collections prefixed with 'colmap_'"]
           scene fs None).
Proof.
  split.
  - intros ref obj Hobj. rewrite select_cameras_spec. split.
    + intros (i & -> & Hi & Hsel). exact Hsel.
    + intros Hsel. exists ref. now repeat split.
  - intros Hnone. apply (select_cameras_nil _ 0%nat) in Hnone.
    unfold export_dataset. now rewrite Hnone.
Qed.

(** C9.  Every object has the rotation mode it had before: after one
    iteration of the loop, whatever its outcome, and after the whole run. *)
Theorem rotation_mode_restored (scene : Scene F) (fs : FS) (dirpath : Path)
    (format : string) :
  (forall (n_cameras : Z) (images_dir : Path) (idx : Z) (ref : nat) (st : LoopState),
     rotation_mode <$>
       objects (loop_scene
                  (snd (fst (camera_iteration n_cameras images_dir idx ref st)))) =
     rotation_mode <$> objects (loop_scene st)) /\
  rotation_mode <$> objects (final_scene (export_dataset scene fs dirpath format)) =
  rotation_mode <$> objects scene.
Proof.
  split; [apply camera_iteration_rotation_mode|].
  unfold export_dataset.
  destruct (select_cameras 0 (objects scene)) as [|c cs]; [done|].
  destruct (mkdir dirpath fs) as [e|fs']; [done|].
  pose proof (camera_loop_rotation_mode
                (Z.of_nat (length (c :: cs))) (path_join dirpath "images")
                (enumerate (sorted sort_key (c :: cs))) (mkLoopState ∅ ∅ scene)) as Hl.
  destruct (camera_loop _ _ _ _) as [[evs st] [e|]]; exact Hl.
Qed.

(** C10.  The run does not depend on [resolution_percentage]: with any
    other value the effects (so the dictionaries handed to [write_model],
    the saved paths and the progress values), the file system and the
    outcome are the same, and the scene left differs in that value only. *)
Theorem resolution_percentage_ignored (scene : Scene F) (fs : FS) (dirpath : Path)
    (format : string) (pct : Z) :
  trace (export_dataset (set_resolution_percentage pct scene) fs dirpath format) =
    trace (export_dataset scene fs dirpath format) /\
  raised (export_dataset (set_resolution_percentage pct scene) fs dirpath format) =
    raised (export_dataset scene fs dirpath format) /\
  final_fs (export_dataset (set_resolution_percentage pct scene) fs dirpath format) =
    final_fs (export_dataset scene fs dirpath format) /\
  final_scene (export_dataset (set_resolution_percentage pct scene) fs dirpath format) =
    set_resolution_percentage pct
      (final_scene (export_dataset scene fs dirpath format)).
Proof.
  unfold export_dataset.
  change (objects (set_resolution_percentage pct scene)) with (objects scene).
  destruct (select_cameras 0 (objects scene)) as [|c cs]; [done|].
  destruct (mkdir dirpath fs) as [e|fs']; [done|].
  change (mkLoopState ∅ ∅ (set_resolution_percentage pct scene))
    with (with_percentage pct (mkLoopState ∅ ∅ scene)).
  rewrite camera_loop_percentage.
  destruct (camera_loop _ _ _ _) as [[evs st] [e|]]; done.
Qed.

Lemma sorted_cameras_nonempty (scene : Scene F) (i : nat) (c : nat * BObject F) :
  sorted_cameras scene !! i = Some c -> select_cameras 0 (objects scene) <> [].
Proof.
  intros Hi Hnil. apply lookup_lt_Some in Hi.
  rewrite sorted_cameras_length, Hnil in Hi. simpl in Hi. lia.
Qed.

(** The one call of [write_model] of a run that completes. *)
Lemma export_dataset_writes (scene : Scene F) (fs fs' : FS) (dirpath : Path)
    (format : string) :
  select_cameras 0 (objects scene) <> [] ->
  sensors_nonzero scene ->
  mkdir dirpath fs = inr fs' ->
  exists cams imgs,
    model_writes (trace (export_dataset scene fs dirpath format)) =
      [(cams, imgs, ∅, dirpath, output_format format)] /\
    raised (export_dataset scene fs dirpath format) = None /\
    (forall (i : nat) ref cam, sorted_cameras scene !! i = Some (ref, cam) ->
       cams !! (Z.of_nat i + 1) =
         Some (camera_record (render scene) (Z.of_nat i) cam) /\
       imgs !! (Z.of_nat i + 1) = Some (image_record (Z.of_nat i) cam)) /\
    (forall k : Z,
       ~ (0 < k <= Z.of_nat (length (select_cameras 0 (objects scene)))) ->
       cams !! k = None /\ imgs !! k = None).
Proof.
  intros Hne Hz Hmk.
  destruct (export_dataset_ok scene fs fs' dirpath format Hne Hz Hmk)
    as (st & Hrun & Hin & Hout).
  exists (cameras st), (images st). rewrite Hrun. simpl.
  rewrite model_writes_app, model_writes_loop_events. done.
Qed.

(** C1.  The pose stored for a camera whose rotation, read in quaternion
    mode, has components [x], [y], [z] and scalar part [w], and whose
    location is [T]: [qvec = (x, w, z, -y)], the scalar-first components of
    the relabelled quaternion [R'], and [tvec = -(matrix(R') @ T)].  This is
    what the camera's iteration stores under [idx + 1], and what a run that
    completes hands to [write_model] under [i + 1] for the camera at
    position [i] of the sorted selection. *)
Theorem pose_conversion :
  (forall (n_cameras : Z) (images_dir : Path) (idx : Z) (ref : nat)
          (st : LoopState) (cam : BObject F) (w x y z : F),
     objects (loop_scene st) !! ref = Some cam ->
     f_is_zero (sensor_width (data cam)) = false ->
     f_is_zero (sensor_height (data cam)) = false ->
     rotation_quaternion (set_rotation_mode "QUATERNION" cam) = mkQuaternion w x y z ->
     exists img,
       images (snd (fst (camera_iteration n_cameras images_dir idx ref st)))
         !! (idx + 1) = Some img /\
       i_qvec img = [x; w; z; fneg y] /\
       i_tvec img =
         [vec_0 (vec_neg (matmul_vec (to_matrix (mkQuaternion x w z (fneg y)))
                                     (location cam)));
          vec_1 (vec_neg (matmul_vec (to_matrix (mkQuaternion x w z (fneg y)))
                                     (location cam)));
          vec_2 (vec_neg (matmul_vec (to_matrix (mkQuaternion x w z (fneg y)))
                                     (location cam)))]) /\
  (forall (scene : Scene F) (fs fs' : FS) (dirpath : Path) (format : string)
          (i ref : nat) (cam : BObject F) (w x y z : F),
     sensors_nonzero scene ->
     mkdir dirpath fs = inr fs' ->
     sorted_cameras scene !! i = Some (ref, cam) ->
     rotation_quaternion (set_rotation_mode "QUATERNION" cam) = mkQuaternion w x y z ->
     exists cams imgs img,
       model_writes (trace (export_dataset scene fs dirpath format)) =
         [(cams, imgs, ∅, dirpath, output_format format)] /\
       imgs !! (Z.of_nat i + 1) = Some img /\
       i_qvec img = [x; w; z; fneg y] /\
       i_tvec img =
         [vec_0 (vec_neg (matmul_vec (to_matrix (mkQuaternion x w z (fneg y)))
                                     (location cam)));
          vec_1 (vec_neg (matmul_vec (to_matrix (mkQuaternion x w z (fneg y)))
                                     (location cam)));
          vec_2 (vec_neg (matmul_vec (to_matrix (mkQuaternion x w z (fneg y)))
                                     (location cam)))]).
Proof.
  split.
  - intros n_cameras images_dir idx ref st cam w x y z Hcam Hw Hh Hq.
    destruct (camera_iteration_records n_cameras images_dir idx ref st cam Hcam Hw Hh)
      as [_ Himg].
    exists (image_record idx cam). split; [exact Himg|].
    unfold image_record. rewrite Hq. simpl. done.
  - intros scene fs fs' dirpath format i ref cam w x y z Hz Hmk Hi Hq.
    destruct (export_dataset_writes scene fs fs' dirpath format
                (sorted_cameras_nonempty scene i _ Hi) Hz Hmk)
      as (cams & imgs & Hw & _ & Hin & _).
    destruct (Hin i ref cam Hi) as [_ Himg].
    exists cams, imgs, (image_record (Z.of_nat i) cam).
    split; [exact Hw|]. split; [exact Himg|].
    unfold image_record. rewrite Hq. simpl. done.
Qed.

Lemma positive_metadata_nonzero `{!FloatOrder F} (scene : Scene F) :
  positive_metadata scene -> sensors_nonzero scene.
Proof.
  intros (_ & _ & Hpos). unfold sensors_nonzero.
  eapply Forall_impl; [exact Hpos|].
  intros c (_ & Hw & Hh). split; now apply fpos_nonzero.
Qed.

(** C2.  The intrinsics stored for a camera with strictly positive sensor
    sides: a [Camera] of model ["OPENCV"] with the render width and height
    and the eight parameters [fx, fy, cx, cy, 0, 0, 0, 0], where
    [fx = lens * width / sensor_width], [fy = lens * height / sensor_height],
    [cx = width / 2] and [cy = height / 2].  This is what the camera's
    iteration stores under [idx + 1], and, when the lens, sensor and
    resolution values of the scene are strictly positive, what the run hands
    to [write_model] under [i + 1] for the camera at position [i] of the
    sorted selection. *)
Theorem opencv_intrinsics `{!FloatOrder F} :
  (forall (n_cameras : Z) (images_dir : Path) (idx : Z) (ref : nat)
          (st : LoopState) (cam : BObject F),
     objects (loop_scene st) !! ref = Some cam ->
     fltb (float_of_int 0) (sensor_width (data cam)) = true ->
     fltb (float_of_int 0) (sensor_height (data cam)) = true ->
     exists c,
       cameras (snd (fst (camera_iteration n_cameras images_dir idx ref st)))
         !! (idx + 1) = Some c /\
       c_id c = idx + 1 /\
       c_model c = "OPENCV" /\
       c_width c = resolution_x (render (loop_scene st)) /\
       c_height c = resolution_y (render (loop_scene st)) /\
       c_params c =
         [PyFloat (fdiv (fmul (lens (data cam))
                              (float_of_int (resolution_x (render (loop_scene st)))))
                        (sensor_width (data cam)));
          PyFloat (fdiv (fmul (lens (data cam))
                              (float_of_int (resolution_y (render (loop_scene st)))))
                        (sensor_height (data cam)));
          PyFloat (fdiv (float_of_int (resolution_x (render (loop_scene st))))
                        (float_of_int 2));
          PyFloat (fdiv (float_of_int (resolution_y (render (loop_scene st))))
                        (float_of_int 2));
          PyInt 0; PyInt 0; PyInt 0; PyInt 0]) /\
  (forall (scene : Scene F) (fs fs' : FS) (dirpath : Path) (format : string)
          (i ref : nat) (cam : BObject F),
     positive_metadata scene ->
     mkdir dirpath fs = inr fs' ->
     sorted_cameras scene !! i = Some (ref, cam) ->
     exists cams imgs c,
       model_writes (trace (export_dataset scene fs dirpath format)) =
         [(cams, imgs, ∅, dirpath, output_format format)] /\
       cams !! (Z.of_nat i + 1) = Some c /\
       c_model c = "OPENCV" /\
       c_width c = resolution_x (render scene) /\
       c_height c = resolution_y (render scene) /\
       c_params c =
         [PyFloat (fdiv (fmul (lens (data cam)) (float_of_int (resolution_x (render scene))))
                        (sensor_width (data cam)));
          PyFloat (fdiv (fmul (lens (data cam)) (float_of_int (resolution_y (render scene))))
                        (sensor_height (data cam)));
          PyFloat (fdiv (float_of_int (resolution_x (render scene))) (float_of_int 2));
          PyFloat (fdiv (float_of_int (resolution_y (render scene))) (float_of_int 2));
          PyInt 0; PyInt 0; PyInt 0; PyInt 0]).
Proof.
  split.
  - intros n_cameras images_dir idx ref st cam Hcam Hw Hh.
    destruct (camera_iteration_records n_cameras images_dir idx ref st cam Hcam
                (fpos_nonzero _ Hw) (fpos_nonzero _ Hh)) as [Hc _].
    exists (camera_record (render (loop_scene st)) idx cam).
    now repeat split.
  - intros scene fs fs' dirpath format i ref cam Hpos Hmk Hi.
    destruct (export_dataset_writes scene fs fs' dirpath format
                (sorted_cameras_nonempty scene i _ Hi)
                (positive_metadata_nonzero scene Hpos) Hmk)
      as (cams & imgs & Hw & _ & Hin & _).
    destruct (Hin i ref cam Hi) as [Hcam _].
    exists cams, imgs, (camera_record (render scene) (Z.of_nat i) cam).
    now repeat split.
Qed.

Lemma StronglySorted_lookup_lt {A : Type} (R : A -> A -> Prop) (l : list A) :
  StronglySorted R l ->
  forall (i j : nat) (x y : A),
    l !! i = Some x -> l !! j = Some y -> (i < j)%nat -> R x y.
Proof.
  induction 1 as [|a l Hl IH Ha]; intros i j x y Hi Hj Hlt; [discriminate|].
  destruct j as [|j]; [lia|]. simpl in Hj.
  destruct i as [|i]; simpl in Hi.
  - inversion Hi; subst. rewrite Forall_forall in Ha. apply Ha.
    apply list_elem_of_lookup. now exists j.
  - apply (IH i j); [done|done|lia].
Qed.

(** C4.  A run over [N >= 1] selected cameras hands [write_model] two
    dictionaries whose keys are exactly [1..N]; the camera at position [i]
    of the selection sorted by [name_full + ".jpg"] (a rearrangement of the
    selection in which every object occurs once, earlier positions having
    keys that are not larger) has its [Camera] and its [Image] under
    [i + 1], and [Camera.id], [Image.id] and [Image.camera_id] are all
    [i + 1]. *)
Theorem dense_ids_in_name_order (scene : Scene F) (fs fs' : FS) (dirpath : Path)
    (format : string) :
  select_cameras 0 (objects scene) <> [] ->
  sensors_nonzero scene ->
  mkdir dirpath fs = inr fs' ->
  exists cams imgs,
    model_writes (trace (export_dataset scene fs dirpath format)) =
      [(cams, imgs, ∅, dirpath, output_format format)] /\
    (forall k : Z,
       is_Some (cams !! k) <->
       1 <= k <= Z.of_nat (length (select_cameras 0 (objects scene)))) /\
    (forall k : Z,
       is_Some (imgs !! k) <->
       1 <= k <= Z.of_nat (length (select_cameras 0 (objects scene)))) /\
    sorted_cameras scene ≡ₚ select_cameras 0 (objects scene) /\
    NoDup (fst <$> sorted_cameras scene) /\
    (forall (i j : nat) ri ci rj cj,
       sorted_cameras scene !! i = Some (ri, ci) ->
       sorted_cameras scene !! j = Some (rj, cj) ->
       (i < j)%nat ->
       String.leb (name_full ci ++ ".jpg") (name_full cj ++ ".jpg") = true) /\
    (forall (i : nat) ref cam,
       sorted_cameras scene !! i = Some (ref, cam) ->
       exists c img,
         cams !! (Z.of_nat i + 1) = Some c /\
         imgs !! (Z.of_nat i + 1) = Some img /\
         c_id c = Z.of_nat i + 1 /\
         i_id img = Z.of_nat i + 1 /\
         i_camera_id img = Z.of_nat i + 1 /\
         i_name img = name_full cam ++ ".jpg").
Proof.
  intros Hne Hz Hmk.
  destruct (export_dataset_writes scene fs fs' dirpath format Hne Hz Hmk)
    as (cams & imgs & Hw & _ & Hin & Hout).
  assert (Hdom : forall k : Z,
            1 <= k <= Z.of_nat (length (select_cameras 0 (objects scene))) ->
            is_Some (cams !! k) /\ is_Some (imgs !! k)).
  { intros k Hk.
    destruct (lookup_lt_is_Some_2 (sorted_cameras scene) (Z.to_nat (k - 1)))
      as [[ref cam] Hi]; [rewrite sorted_cameras_length; lia|].
    destruct (Hin _ ref cam Hi) as [Hc Him].
    replace (Z.of_nat (Z.to_nat (k - 1)) + 1) with k in Hc, Him by lia.
    rewrite Hc, Him. split; eauto. }
  assert (Hnone : forall k : Z,
            ~ 1 <= k <= Z.of_nat (length (select_cameras 0 (objects scene))) ->
            cams !! k = None /\ imgs !! k = None).
  { intros k Hk. apply Hout. lia. }
  exists cams, imgs. split; [exact Hw|].
  split; [|split; [|split; [|split; [|split]]]].
  - intros k. split; [|intros Hk; now apply Hdom].
    intros [c Hc].
    destruct (decide (1 <= k <= Z.of_nat (length (select_cameras 0 (objects scene)))))
      as [Hk|Hk]; [exact Hk|].
    destruct (Hnone k Hk) as [Hc' _]. congruence.
  - intros k. split; [|intros Hk; now apply Hdom].
    intros [c Hc].
    destruct (decide (1 <= k <= Z.of_nat (length (select_cameras 0 (objects scene)))))
      as [Hk|Hk]; [exact Hk|].
    destruct (Hnone k Hk) as [_ Hc']. congruence.
  - apply sorted_cameras_Permutation.
  - rewrite sorted_cameras_Permutation. apply select_cameras_NoDup.
  - intros i j ri ci rj cj Hi Hj Hlt.
    exact (StronglySorted_lookup_lt _ _ (sorted_StronglySorted sort_key _)
             i j _ _ Hi Hj Hlt).
  - intros i ref cam Hi. destruct (Hin i ref cam Hi) as [Hc Him].
    exists (camera_record (render scene) (Z.of_nat i) cam),
           (image_record (Z.of_nat i) cam).
    now repeat split.
Qed.

Lemma output_format_spec (format : string) :
  (format = ".txt" \/ format = ".bin" -> output_format format = format) /\
  (format <> ".txt" -> format <> ".bin" -> output_format format = ".txt").
Proof.
  unfold output_format. simpl.
  destruct (String.eqb_spec format ".txt") as [->|Ht]; [done|].
  destruct (String.eqb_spec format ".bin") as [->|Hb]; [done|].
  simpl. split; [intros [?|?]; done | done].
Qed.

(** C8.  A run with selected cameras calls [write_model] once, after the
    effects of every camera and before the last [yield], with the two
    dictionaries, an empty [Point3D] dictionary, the output directory and an
    extension that is the requested format when that is [".txt"] or
    [".bin"], and [".txt"] for any other string. *)
Theorem write_model_once (scene : Scene F) (fs fs' : FS) (dirpath : Path)
    (format : string) :
  select_cameras 0 (objects scene) <> [] ->
  sensors_nonzero scene ->
  mkdir dirpath fs = inr fs' ->
  exists cams imgs ext,
    trace (export_dataset scene fs dirpath format) =
      (loop_events (Z.of_nat (length (select_cameras 0 (objects scene))))
                   (path_join dirpath "images")
                   (enumerate (sorted_cameras scene)) ++
       [EWriteModel cams imgs ∅ dirpath ext; EYield (float_of_int 100)])%list /\
    model_writes (trace (export_dataset scene fs dirpath format)) =
      [(cams, imgs, ∅, dirpath, ext)] /\
    (format = ".txt" \/ format = ".bin" -> ext = format) /\
    (format <> ".txt" -> format <> ".bin" -> ext = ".txt").
Proof.
  intros Hne Hz Hmk.
  destruct (export_dataset_ok scene fs fs' dirpath format Hne Hz Hmk)
    as (st & Hrun & _ & _).
  exists (cameras st), (images st), (output_format format).
  rewrite Hrun. simpl. split; [done|]. split.
  - now rewrite model_writes_app, model_writes_loop_events.
  - apply output_format_spec.
Qed.

End Claims.

(** ** Progress values, on the rationals *)

Lemma progress_of_lt (n idx1 idx2 : Z) :
  0 <= n -> idx1 < idx2 -> (progress_of n idx1 < progress_of n idx2)%Q.
Proof.
  intros Hn Hlt. unfold progress_of, Qdiv.
  apply Qmult_lt_compat_r.
  - apply Qinv_lt_0_compat. change 0%Q with (inject_Z 0).
    rewrite <- (Zlt_Qlt 0 (n + 1)). lia.
  - apply Qmult_lt_l; [reflexivity|]. rewrite <- Zlt_Qlt. exact Hlt.
Qed.

Lemma progress_of_lt_100 (n idx : Z) :
  0 <= n -> idx <= n -> (progress_of n idx < inject_Z 100)%Q.
Proof.
  intros Hn Hle. unfold progress_of.
  apply Qlt_shift_div_r.
  - change 0%Q with (inject_Z 0). rewrite <- (Zlt_Qlt 0 (n + 1)). lia.
  - apply Qmult_lt_l; [reflexivity|]. rewrite <- Zlt_Qlt. lia.
Qed.

Lemma enumerate_from_elem_of {A : Type} (l : list A) (start idx : Z) (x : A) :
  (idx, x) ∈ enumerate_from start l -> start <= idx < start + Z.of_nat (length l).
Proof.
  revert start. induction l as [|y l IH]; intros start Hin; simpl in *.
  - inversion Hin.
  - apply elem_of_cons in Hin as [Heq|Hin].
    + inversion Heq; subst. lia.
    + apply IH in Hin. lia.
Qed.

Lemma enumerate_from_length {A : Type} (l : list A) (start : Z) :
  length (enumerate_from start l) = length l.
Proof. revert start. induction l as [|y l IH]; intros start; simpl; [done|]. now rewrite IH. Qed.

Lemma progress_StronglySorted {A : Type} (n : Z) (l : list A) (start : Z) :
  0 <= n -> 0 <= start -> start + Z.of_nat (length l) <= n + 1 ->
  StronglySorted Qlt
    (((fun item : Z * A => progress_of n (fst item)) <$> enumerate_from start l)
       ++ [inject_Z 100])%list.
Proof.
  intros Hn. revert start. induction l as [|y l IH]; intros start Hs Hlen; simpl.
  - repeat constructor.
  - simpl in Hlen. constructor; [apply IH; lia|].
    apply Forall_app. split.
    + apply Forall_fmap, Forall_forall. intros [idx x] Hin. simpl.
      apply enumerate_from_elem_of in Hin. apply progress_of_lt; lia.
    + constructor; [|constructor]. apply progress_of_lt_100; lia.
Qed.

Section ProgressEvents.
Context {F : Type} `{FloatOps F} `{Mathutils F} `{Bpy F}.

Lemma loop_events_yield (n : Z) (images_dir : Path)
    (items : list (Z * (nat * BObject F))) (v : F) :
  EYield v ∈ loop_events n images_dir items ->
  exists item,
    item ∈ items /\
    v = fdiv (fmul (float_of_int 100) (float_of_int (fst item))) (float_of_int (n + 1)).
Proof.
  unfold loop_events. induction items as [|item items IH]; simpl; intros Hin.
  - inversion Hin.
  - repeat (apply elem_of_cons in Hin as [Heq|Hin]; [try discriminate|]).
    + inversion Heq; subst. exists item. split; [left|reflexivity].
    + destruct (IH Hin) as (item' & Hitem & Hv).
      exists item'. split; [now right|exact Hv].
Qed.

(** In a trace made of the loop's effects, one call of [write_model] and a
    last [yield], a [yield] whose value is none of the loop's comes after
    the call. *)
Lemma yield_after_write (n : Z) (images_dir : Path)
    (items : list (Z * (nat * BObject F))) (w : Event F) (last : F)
    (k : nat) (v : F) :
  (forall p : F, w <> EYield p) ->
  (loop_events n images_dir items ++ [w; EYield last])%list !! k = Some (EYield v) ->
  (forall item, item ∈ items ->
     v <> fdiv (fmul (float_of_int 100) (float_of_int (fst item)))
               (float_of_int (n + 1))) ->
  exists j : nat,
    (j < k)%nat /\
    (loop_events n images_dir items ++ [w; EYield last])%list !! j = Some w.
Proof.
  intros Hw Hk Hv. set (L := loop_events n images_dir items) in *.
  exists (length L).
  destruct (decide (k < length L)%nat) as [Hlt|Hge].
  - rewrite lookup_app_l in Hk by exact Hlt.
    assert (Hin : EYield v ∈ L) by (apply list_elem_of_lookup; now exists k).
    apply loop_events_yield in Hin as (item & Hitem & Heq).
    now destruct (Hv item Hitem).
  - rewrite lookup_app_r in Hk by lia.
    destruct (k - length L)%nat as [|[|m]] eqn:Hd; simpl in Hk; try discriminate.
    + inversion Hk as [Heq]. now destruct (Hw v).
    + split; [lia|]. rewrite lookup_app_r by lia. now rewrite Nat.sub_diag.
Qed.

End ProgressEvents.

(** ** Progress values, on binary64 *)

Lemma progress_checked : forallb progress_check (seq 0 (S checked_cameras)) = true.
Proof. vm_compute. reflexivity. Qed.

Lemma progress_check_le (n : nat) :
  (n <= checked_cameras)%nat -> progress_check n = true.
Proof.
  intros Hn. pose proof progress_checked as Hall.
  rewrite forallb_forall in Hall. apply Hall. apply in_seq. lia.
Qed.

Lemma enumerate_from_progress {A : Type} (n : Z) (l : list A) (start : nat) :
  (fun item : Z * A =>
     fdiv (fmul (float_of_int 100) (float_of_int (fst item))) (float_of_int (n + 1)))
    <$> enumerate_from (Z.of_nat start) l =
  map (fun i : nat => binary64_progress n (Z.of_nat i)) (seq start (length l)).
Proof.
  revert start. induction l as [|x l IH]; intros start; simpl; [done|].
  f_equal. replace (Z.of_nat start + 1) with (Z.of_nat (S start)) by lia. apply IH.
Qed.


(** ** Progress *)


(** ** The output directory *)

Section OutputDirectory.
Context {F : Type} `{FloatOps F} `{Mathutils F} `{Bpy F}.

Lemma export_dataset_final_fs (scene : Scene F) (fs fs' : FS) (dirpath : Path)
    (format : string) :
  select_cameras 0 (objects scene) <> [] ->
  mkdir dirpath fs = inr fs' ->
  final_fs (export_dataset scene fs dirpath format) = fs'.
Proof.
  intros Hne Hmk. unfold export_dataset.
  destruct (select_cameras 0 (objects scene)) as [|c cs]; [done|].
  rewrite Hmk.
  now destruct (camera_loop _ _ _ _) as [[evs st] [e|]].
Qed.


End OutputDirectory.

(** ** Scenario A *)

(** Scenario A on binary64: the parameters stored for both cameras are
    [fx = 777.77...], [fy = 875], [cx = 400], [cy = 300] and four zeros. *)
Lemma run_A_binary64_writes :
  exists cams imgs,
    model_writes (trace run_A_binary64) = [(cams, imgs, ∅, ["out"; "tmp"], ".bin")] /\
    c_params <$> cams !! 1 =
      Some [PyFloat 0x1.84e38e38e38e4p+9%float; PyFloat 875%float;
            PyFloat 400%float; PyFloat 300%float;
            PyInt 0; PyInt 0; PyInt 0; PyInt 0] /\
    c_params <$> cams !! 2 = c_params <$> cams !! 1 /\
    dom cams = ({[1; 2]} : gset Z) /\
    dom imgs = ({[1; 2]} : gset Z) /\
    i_name <$> imgs !! 1 = Some "A.jpg" /\
    i_name <$> imgs !! 2 = Some "B.jpg".
Proof.
  eexists _, _. split; [vm_compute; reflexivity|].
  repeat split; vm_compute; reflexivity.
Qed.

Lemma run_A_rational_writes :
  exists cams imgs,
    model_writes (trace run_A_rational) = [(cams, imgs, ∅, ["out"; "tmp"], ".txt")] /\
    c_params <$> cams !! 1 =
      Some [PyFloat (28000 # 36)%Q; PyFloat (21000 # 24)%Q;
            PyFloat (800 # 2)%Q; PyFloat (600 # 2)%Q;
            PyInt 0; PyInt 0; PyInt 0; PyInt 0].
Proof. eexists _, _. split; vm_compute; reflexivity. Qed.

(** C3, as stated, fails: in scenario A the two focal parameters stored for
    camera 1 are not equal. *)
Lemma scenario_A_fx_fy_differ :
  ~ (exists cams imgs fx fy rest,
       model_writes (trace run_A_binary64) =
         [(cams, imgs, ∅, ["out"; "tmp"], ".bin")] /\
       c_params <$> cams !! 1 = Some (PyFloat fx :: PyFloat fy :: rest) /\
       fx = fy).
Proof.
  intros (cams & imgs & fx & fy & rest & Hw & Hp & Heq).
  destruct run_A_binary64_writes as (cams' & imgs' & Hw' & Hp' & _).
  rewrite Hw' in Hw. injection Hw as Hcams _. rewrite <- Hcams, Hp' in Hp.
  injection Hp as Hfx Hfy _. rewrite <- Hfx, <- Hfy in Heq.
  apply (f_equal (fun x => PrimFloat.eqb x 875%float)) in Heq.
  vm_compute in Heq. discriminate.
Qed.

(** C3, as the code has it.  Scenario A on binary64: both cameras get
    [fx = 0x1.84e38e38e38e4p+9] (between 777.75 and 777.8125), [fy = 875],
    [cx = 400], [cy = 300] and zero distortion; the ids are 1 and 2; image 1
    is ["A.jpg"] and image 2 is ["B.jpg"], each with its own id as camera
    id.  On the rationals [fx] is [7000/9], within 0.005 of 777.78, and
    [fy] is 875. *)
Theorem scenario_A_export :
  (exists cams imgs fx,
     model_writes (trace run_A_binary64) =
       [(cams, imgs, ∅, ["out"; "tmp"], ".bin")] /\
     c_params <$> cams !! 1 =
       Some [PyFloat fx; PyFloat 875%float; PyFloat 400%float; PyFloat 300%float;
             PyInt 0; PyInt 0; PyInt 0; PyInt 0] /\
     c_params <$> cams !! 2 = c_params <$> cams !! 1 /\
     fx = 0x1.84e38e38e38e4p+9%float /\
     PrimFloat.ltb 777.75%float fx = true /\
     PrimFloat.ltb fx 777.8125%float = true /\
     dom cams = ({[1; 2]} : gset Z) /\
     dom imgs = ({[1; 2]} : gset Z) /\
     (fun im => (i_id im, i_camera_id im, i_name im)) <$> imgs !! 1 =
       Some (1, 1, "A.jpg") /\
     (fun im => (i_id im, i_camera_id im, i_name im)) <$> imgs !! 2 =
       Some (2, 2, "B.jpg")) /\
  (exists cams imgs fx fy cx cy,
     model_writes (trace run_A_rational) =
       [(cams, imgs, ∅, ["out"; "tmp"], ".txt")] /\
     c_params <$> cams !! 1 =
       Some [PyFloat fx; PyFloat fy; PyFloat cx; PyFloat cy;
             PyInt 0; PyInt 0; PyInt 0; PyInt 0] /\
     (fx == 7000 # 9)%Q /\
     (777775 # 1000 < fx)%Q /\ (fx < 777785 # 1000)%Q /\
     (fy == 875 # 1)%Q /\ (cx == 400 # 1)%Q /\ (cy == 300 # 1)%Q).
Proof.
  split.
  - eexists _, _, _. split; [vm_compute; reflexivity|].
    repeat split; vm_compute; reflexivity.
  - destruct run_A_rational_writes as (cams & imgs & Hw & Hp).
    exists cams, imgs. eexists _, _, _, _.
    split; [exact Hw|]. split; [exact Hp|].
    repeat split; vm_compute; reflexivity.
Qed.


(** ** The theorems at scenario A and scenario B *)

Lemma pose_conversion_witness :
  exists cams imgs img,
    model_writes (trace run_A_binary64) = [(cams, imgs, ∅, ["out"; "tmp"], ".bin")] /\
    imgs !! 1 = Some img /\
    i_qvec img = [0%float; 1%float; 0%float; (-0)%float] /\
    i_tvec img = [(-1)%float; 2%float; 3%float].
Proof.
  pose proof (proj2 (pose_conversion (F := float)) scenario_A ∅ fs_A ["out"; "tmp"] ".bin"
                0%nat 1%nat (scenario_camera "A") 1%float 0%float 0%float 0%float
                ltac:(unfold sensors_nonzero; vm_compute; repeat constructor)
                ltac:(vm_compute; reflexivity)
                ltac:(vm_compute; reflexivity)
                ltac:(vm_compute; reflexivity)) as W.
  vm_compute in W. vm_compute. exact W.
Defined.

Lemma opencv_intrinsics_witness :
  exists cams imgs c,
    model_writes (trace run_A_binary64) = [(cams, imgs, ∅, ["out"; "tmp"], ".bin")] /\
    cams !! 2 = Some c /\
    c_model c = "OPENCV" /\
    c_width c = 800 /\
    c_height c = 600 /\
    c_params c =
      [PyFloat (35 * 800 / 36)%float; PyFloat (35 * 600 / 24)%float;
       PyFloat (800 / 2)%float; PyFloat (600 / 2)%float;
       PyInt 0; PyInt 0; PyInt 0; PyInt 0].
Proof.
  pose proof (proj2 (opencv_intrinsics (F := float)) scenario_A ∅ fs_A ["out"; "tmp"] ".bin"
                1%nat 0%nat (scenario_camera "B")
                ltac:(unfold positive_metadata; vm_compute; repeat constructor)
                ltac:(vm_compute; reflexivity)
                ltac:(vm_compute; reflexivity)) as W.
  vm_compute in W. vm_compute. exact W.
Defined.

Lemma dense_ids_in_name_order_witness :
  exists cams imgs,
    model_writes (trace run_A_binary64) = [(cams, imgs, ∅, ["out"; "tmp"], ".bin")] /\
    (forall k : Z, is_Some (cams !! k) <-> 1 <= k <= 2) /\
    (forall k : Z, is_Some (imgs !! k) <-> 1 <= k <= 2).
Proof.
  destruct (dense_ids_in_name_order (F := float) scenario_A ∅ fs_A ["out"; "tmp"] ".bin"
              ltac:(vm_compute; discriminate)
              ltac:(unfold sensors_nonzero; vm_compute; repeat constructor)
              ltac:(vm_compute; reflexivity))
    as (cams & imgs & Hw & Hc & Hi & _).
  exists cams, imgs. split; [exact Hw|]. split; [exact Hc|exact Hi].
Defined.

Lemma selection_and_empty_export_witness :
  export_dataset (F := Q) scenario_B ∅ ["out"; "tmp"] ".txt" =
    mkRun [EPrint "Warning: No cameras found in collections prefixed with 'colmap_'"]
          scenario_B ∅ None.
Proof.
  apply (proj2 (selection_and_empty_export (F := Q) scenario_B ∅ ["out"; "tmp"] ".txt")).
  apply (select_cameras_nil _ 0%nat). vm_compute. reflexivity.
Defined.



Lemma write_model_once_witness :
  exists cams imgs,
    model_writes (trace run_A_binary64) = [(cams, imgs, ∅, ["out"; "tmp"], ".bin")].
Proof.
  destruct (write_model_once (F := float) scenario_A ∅ fs_A ["out"; "tmp"] ".bin"
              ltac:(vm_compute; discriminate)
              ltac:(unfold sensors_nonzero; vm_compute; repeat constructor)
              ltac:(vm_compute; reflexivity))
    as (cams & imgs & ext & _ & Hw & Hext & _).
  exists cams, imgs. unfold run_A_binary64. rewrite Hw, (Hext (or_intror eq_refl)). reflexivity.
Defined.

(** * Further properties *)

(** ** The loop, whatever its outcome *)

Section LoopOutcome.
Context {F : Type} `{FloatOps F} `{Mathutils F} `{Bpy F}.

Lemma sensor_ok_spec (cam : nat * BObject F) :
  sensor_ok cam = true <->
  f_is_zero (sensor_width (data (snd cam))) = false /\
  f_is_zero (sensor_height (data (snd cam))) = false.
Proof.
  unfold sensor_ok. rewrite andb_true_iff, !negb_true_iff. reflexivity.
Qed.

Lemma forallb_sensor_ok (l : list (nat * BObject F)) :
  forallb sensor_ok l = true <->
  Forall (fun cam : nat * BObject F =>
            f_is_zero (sensor_width (data (snd cam))) = false /\
            f_is_zero (sensor_height (data (snd cam))) = false) l.
Proof.
  rewrite forallb_forall, Forall_forall. split; intros Hall c Hc.
  - apply sensor_ok_spec, Hall. now apply list_elem_of_In.
  - apply sensor_ok_spec, Hall. now apply list_elem_of_In.
Qed.

Lemma rendered_prefix_all (l : list (nat * BObject F)) :
  forallb sensor_ok l = true -> rendered_prefix l = l.
Proof.
  induction l as [|c l IH]; simpl; [done|].
  destruct (sensor_ok c); simpl; [|discriminate]. intros Hl. now rewrite IH.
Qed.

Lemma rendered_prefix_prefix (l : list (nat * BObject F)) :
  rendered_prefix l `prefix_of` l.
Proof.
  induction l as [|c l IH]; simpl; [done|].
  destruct (sensor_ok c); [now apply prefix_cons | apply prefix_nil].
Qed.

Lemma rendered_prefix_short (l : list (nat * BObject F)) :
  forallb sensor_ok l = false ->
  exists c, l !! length (rendered_prefix l) = Some c /\ sensor_ok c = false.
Proof.
  induction l as [|c l IH]; simpl; [discriminate|].
  destruct (sensor_ok c) eqn:E; simpl.
  - intros Hl. exact (IH Hl).
  - intros _. now exists c.
Qed.

(** An iteration over a camera with a zero sensor side raises at once. *)
Lemma camera_iteration_zero (n_cameras : Z) (images_dir : Path) (idx : Z)
    (ref : nat) (st : LoopState) (cam : BObject F) :
  objects (loop_scene st) !! ref = Some cam ->
  sensor_ok (ref, cam) = false ->
  camera_iteration n_cameras images_dir idx ref st = ([], st, Some ZeroDivisionError).
Proof.
  intros Hcam Hok. unfold camera_iteration. rewrite Hcam.
  unfold sensor_ok in Hok. simpl in Hok. unfold float_truediv.
  destruct (f_is_zero (sensor_width (data cam))); [reflexivity|].
  destruct (f_is_zero (sensor_height (data cam))); [reflexivity|discriminate].
Qed.

(** The loop in full: it runs the cameras before the first zero sensor side,
    raises [ZeroDivisionError] there if there is one, leaves the objects it
    ran switched to quaternions and back and the others as they were, and
    the last camera it ran as the active one. *)
Lemma camera_loop_run (n_cameras : Z) (images_dir : Path)
    (l : list (nat * BObject F)) :
  forall (start : Z) (st : LoopState),
  NoDup (fst <$> l) ->
  (forall ref cam, (ref, cam) ∈ l -> objects (loop_scene st) !! ref = Some cam) ->
  n_cameras + 1 <> 0 ->
  exists st' : LoopState,
    camera_loop n_cameras images_dir (enumerate_from start l) st =
      (loop_events n_cameras images_dir (enumerate_from start (rendered_prefix l)),
       st',
       if forallb sensor_ok l then None else Some ZeroDivisionError) /\
    render (loop_scene st') = render (loop_scene st) /\
    (forall ref cam, (ref, cam) ∈ rendered_prefix l ->
       objects (loop_scene st') !! ref = Some (restored cam)) /\
    (forall ref, ref ∉ fst <$> rendered_prefix l ->
       objects (loop_scene st') !! ref = objects (loop_scene st) !! ref) /\
    camera (loop_scene st') =
      match last (rendered_prefix l) with
      | Some c => Some (fst c)
      | None => camera (loop_scene st)
      end.
Proof.
  induction l as [|[ref cam] l IH]; intros start st Hnd Hobj Hn.
  - exists st. simpl. repeat split; try done. intros ref cam Hin. inversion Hin.
  - inversion Hnd as [|? ? Hnotin Hnd']; subst.
    assert (Hcam : objects (loop_scene st) !! ref = Some cam)
      by (apply Hobj; left).
    simpl. destruct (sensor_ok (ref, cam)) eqn:Hok.
    + apply sensor_ok_spec in Hok as [Hw Hh]. simpl in Hw, Hh.
      pose proof (camera_iteration_ok n_cameras images_dir start ref st cam
                    Hcam Hw Hh Hn) as Hit.
      set (st1 := mkLoopState
         (<[start + 1 := camera_record (render (loop_scene st)) start cam]> (cameras st))
         (<[start + 1 := image_record start cam]> (images st))
         (set_camera ref
            (set_objects (<[ref := restored cam]> (objects (loop_scene st)))
                         (loop_scene st)))) in *.
      assert (Hobj1 : forall ref' cam', (ref', cam') ∈ l ->
                objects (loop_scene st1) !! ref' = Some cam').
      { intros ref' cam' Hin'. simpl.
        rewrite list_lookup_insert_ne; [apply Hobj; now right|].
        intros ->. apply Hnotin. apply list_elem_of_fmap. now exists (ref', cam'). }
      destruct (IH (start + 1) st1 Hnd' Hobj1 Hn)
        as (st' & Hloop & Hrender & Hran & Hrest & Hactive).
      exists st'. split; [|split; [|split; [|split]]].
      * rewrite Hit, Hloop. reflexivity.
      * rewrite Hrender. reflexivity.
      * intros ref' cam' Hin. apply elem_of_cons in Hin as [Heq|Hin].
        -- inversion Heq; subst ref' cam'.
           rewrite Hrest.
           ++ simpl. apply list_lookup_insert_eq. now apply lookup_lt_Some in Hcam.
           ++ intros Hin. apply Hnotin.
              apply list_elem_of_fmap in Hin as (c & -> & Hc).
              apply list_elem_of_fmap. exists c. split; [done|].
              eapply elem_of_prefix; [exact Hc | apply rendered_prefix_prefix].
        -- now apply Hran.
      * intros ref' Hnot. rewrite fmap_cons, not_elem_of_cons in Hnot.
        destruct Hnot as [Hne Hnot]. simpl in Hne.
        rewrite (Hrest ref' Hnot). simpl. now apply list_lookup_insert_ne.
      * rewrite Hactive. rewrite last_cons.
        now destruct (last (rendered_prefix l)).
    + rewrite (camera_iteration_zero n_cameras images_dir start ref st cam Hcam Hok).
      exists st. simpl. repeat split; try done.
      intros ref' cam' Hin. inversion Hin.
Qed.

(** The run in full, once the output directory is there. *)
Lemma export_dataset_run (scene : Scene F) (fs fs' : FS) (dirpath : Path)
    (format : string) :
  select_cameras 0 (objects scene) <> [] ->
  mkdir dirpath fs = inr fs' ->
  exists st : LoopState,
    export_dataset scene fs dirpath format =
      mkRun (loop_events (Z.of_nat (length (select_cameras 0 (objects scene))))
                         (path_join dirpath "images")
                         (enumerate (rendered_prefix (sorted_cameras scene))) ++
             (if forallb sensor_ok (sorted_cameras scene)
              then [EWriteModel (cameras st) (images st) ∅ dirpath
                                (output_format format);
                    EYield (float_of_int 100)]
              else []))%list
            (loop_scene st) fs'
            (if forallb sensor_ok (sorted_cameras scene)
             then None else Some ZeroDivisionError) /\
    render (loop_scene st) = render scene /\
    (forall ref cam, (ref, cam) ∈ rendered_prefix (sorted_cameras scene) ->
       objects (loop_scene st) !! ref = Some (restored cam)) /\
    (forall ref, ref ∉ fst <$> rendered_prefix (sorted_cameras scene) ->
       objects (loop_scene st) !! ref = objects scene !! ref) /\
    camera (loop_scene st) =
      match last (rendered_prefix (sorted_cameras scene)) with
      | Some c => Some (fst c)
      | None => camera scene
      end.
Proof.
  intros Hne Hmk.
  destruct (camera_loop_run
              (Z.of_nat (length (select_cameras 0 (objects scene))))
              (path_join dirpath "images") (sorted_cameras scene) 0
              (mkLoopState ∅ ∅ scene))
    as (st & Hloop & Hrender & Hran & Hrest & Hactive).
  - rewrite sorted_cameras_Permutation. apply select_cameras_NoDup.
  - intros ref cam Hin. simpl. apply select_cameras_lookup.
    now rewrite <- sorted_cameras_Permutation.
  - lia.
  - exists st. split; [|done].
    unfold export_dataset, sorted_cameras, enumerate in *.
    destruct (select_cameras 0 (objects scene)) as [|c cs] eqn:E; [done|].
    rewrite Hmk, Hloop.
    destruct (forallb sensor_ok (sorted sort_key (c :: cs))); [reflexivity|].
    simpl. now rewrite app_nil_r.
Qed.

End LoopOutcome.

(** ** What a run raises, and what it leaves behind when it does *)

Section Extras.
Context {F : Type} `{FloatOps F} `{Mathutils F} `{Bpy F}.

Lemma sorted_cameras_all_ok (scene : Scene F) :
  forallb sensor_ok (sorted_cameras scene) = true <-> sensors_nonzero scene.
Proof.
  rewrite forallb_sensor_ok. unfold sensors_nonzero.
  now rewrite sorted_cameras_Permutation.
Qed.

Lemma saved_paths_app (tr1 tr2 : list (Event F)) :
  saved_paths (tr1 ++ tr2) = (saved_paths tr1 ++ saved_paths tr2)%list.
Proof.
  induction tr1 as [|e tr1 IH]; simpl; [done|].
  destruct e; simpl; now rewrite ?IH.
Qed.

Lemma saved_paths_loop_events (n_cameras : Z) (images_dir : Path)
    (items : list (Z * (nat * BObject F))) :
  saved_paths (loop_events n_cameras images_dir items) =
  (fun item : Z * (nat * BObject F) =>
     path_join images_dir (name_full (snd (snd item)) ++ ".jpg")) <$> items.
Proof.
  unfold loop_events. induction items as [|item items IH]; simpl; [done|].
  now rewrite IH.
Qed.

Lemma enumerate_from_snd {A : Type} (l : list A) (start : Z) :
  snd <$> enumerate_from start l = l.
Proof.
  revert start. induction l as [|x l IH]; intros start; simpl; [done|].
  now rewrite IH.
Qed.

Lemma enumerate_from_lookup {A : Type} (l : list A) (start : Z) (i : nat) (x : A) :
  l !! i = Some x ->
  enumerate_from start l !! i = Some (start + Z.of_nat i, x).
Proof.
  revert start i. induction l as [|y l IH]; intros start [|i] Hi; simpl in *;
    try discriminate.
  - inversion Hi; subst. f_equal. f_equal. lia.
  - rewrite (IH (start + 1) i Hi). f_equal. f_equal. lia.
Qed.



(** ** What a run changes in the scene *)

Lemma camera_iteration_identity (n_cameras : Z) (images_dir : Path)
    (idx : Z) (ref : nat) (st : LoopState) :
  identity_of <$>
    objects (loop_scene (snd (fst (camera_iteration n_cameras images_dir idx ref st)))) =
  identity_of <$> objects (loop_scene st) /\
  render (loop_scene (snd (fst (camera_iteration n_cameras images_dir idx ref st)))) =
  render (loop_scene st).
Proof.
  unfold camera_iteration.
  destruct (objects (loop_scene st) !! ref) as [cam|] eqn:Hcam; [|done].
  destruct (float_truediv _ _) as [e|fx]; [done|].
  destruct (float_truediv _ _) as [e|fy]; [done|].
  assert (Hid :
    identity_of <$> <[ref := restored cam]> (objects (loop_scene st)) =
    identity_of <$> objects (loop_scene st)).
  { rewrite list_fmap_insert. apply list_insert_id.
    rewrite list_lookup_fmap, Hcam. reflexivity. }
  destruct (float_truediv_int _ _) as [e|progress]; split; done.
Qed.

Lemma camera_loop_identity (n_cameras : Z) (images_dir : Path)
    (items : list (Z * (nat * BObject F))) (st : LoopState) :
  identity_of <$>
    objects (loop_scene (snd (fst (camera_loop n_cameras images_dir items st)))) =
  identity_of <$> objects (loop_scene st) /\
  render (loop_scene (snd (fst (camera_loop n_cameras images_dir items st)))) =
  render (loop_scene st).
Proof.
  revert st. induction items as [|[idx [ref cam]] items IH]; intros st; simpl; [done|].
  pose proof (camera_iteration_identity n_cameras images_dir idx ref st) as [Hid Hr].
  destruct (camera_iteration n_cameras images_dir idx ref st) as [[ev st1] [e|]];
    simpl in Hid, Hr; [done|].
  destruct (IH st1) as [Hid' Hr'].
  destruct (camera_loop n_cameras images_dir items st1) as [[evs st2] r].
  simpl in *. split; congruence.
Qed.

(** X3.  Whatever its outcome, a run changes no object's type, name,
    collections, lens and sensor data, rotation mode or location, adds and
    removes no object, and leaves the render settings alone: only rotation
    values and the active camera can differ afterwards. *)
Theorem export_keeps_identity (scene : Scene F) (fs : FS) (dirpath : Path)
    (format : string) :
  identity_of <$> objects (final_scene (export_dataset scene fs dirpath format)) =
    identity_of <$> objects scene /\
  render (final_scene (export_dataset scene fs dirpath format)) = render scene.
Proof.
  unfold export_dataset.
  destruct (select_cameras 0 (objects scene)) as [|c cs]; [done|].
  destruct (mkdir dirpath fs) as [e|fs']; [done|].
  pose proof (camera_loop_identity
                (Z.of_nat (length (c :: cs))) (path_join dirpath "images")
                (enumerate (sorted sort_key (c :: cs))) (mkLoopState ∅ ∅ scene)) as Hl.
  destruct (camera_loop _ _ _ _) as [[evs st] [e|]]; exact Hl.
Qed.

Lemma is_selected_spec (obj : BObject F) : is_selected obj = true <-> selected obj.
Proof. apply selected_test. Qed.

(** X4.  After a run that completes, every selected camera is the object
    it was, switched to quaternion mode and back by the host, and every
    other object is exactly as it was. *)
Theorem objects_after_export (scene : Scene F) (fs fs' : FS) (dirpath : Path)
    (format : string) (ref : nat) (obj : BObject F) :
  mkdir dirpath fs = inr fs' ->
  sensors_nonzero scene ->
  objects scene !! ref = Some obj ->
  objects (final_scene (export_dataset scene fs dirpath format)) !! ref =
    Some (if is_selected obj
          then set_rotation_mode (rotation_mode obj)
                 (set_rotation_mode "QUATERNION" obj)
          else obj).
Proof.
  intros Hmk Hz Hobj.
  destruct (select_cameras 0 (objects scene)) as [|c cs] eqn:E.
  - assert (Hsel : is_selected obj = false).
    { destruct (is_selected obj) eqn:Hs; [|done].
      apply is_selected_spec in Hs.
      pose proof (proj1 (select_cameras_nil (objects scene) 0%nat) E) as Hnil.
      destruct (Hnil obj); [|done]. apply list_elem_of_lookup. now exists ref. }
    rewrite Hsel. unfold export_dataset. now rewrite E.
  - assert (Hne : select_cameras 0 (objects scene) <> []) by (rewrite E; discriminate).
    destruct (export_dataset_run scene fs fs' dirpath format Hne Hmk)
      as (st & Hrun & _ & Hran & Hrest & _).
    rewrite Hrun. simpl.
    apply sorted_cameras_all_ok in Hz.
    rewrite (rendered_prefix_all _ Hz) in Hran, Hrest.
    destruct (is_selected obj) eqn:Hs.
    + apply Hran. rewrite sorted_cameras_Permutation.
      apply select_cameras_spec. exists ref.
      split; [done|]. split; [done|]. now apply is_selected_spec.
    + rewrite Hrest; [done|].
      intros Hin. apply list_elem_of_fmap in Hin as ([ref' cam'] & Href & Hin).
      simpl in Href. subst ref'.
      rewrite sorted_cameras_Permutation in Hin.
      apply select_cameras_spec in Hin as (i & Hi & Hlook & Hsel).
      simpl in Hi. subst i. rewrite Hobj in Hlook. inversion Hlook; subst cam'.
      apply is_selected_spec in Hsel. congruence.
Qed.

(** X5.  A run that completes leaves the last camera in name order as the
    scene's active camera: the camera that was active before is not put
    back. *)
Theorem last_camera_stays_active (scene : Scene F) (fs fs' : FS) (dirpath : Path)
    (format : string) :
  select_cameras 0 (objects scene) <> [] ->
  sensors_nonzero scene ->
  mkdir dirpath fs = inr fs' ->
  exists ref cam,
    last (sorted_cameras scene) = Some (ref, cam) /\
    camera (final_scene (export_dataset scene fs dirpath format)) = Some ref.
Proof.
  intros Hne Hz Hmk.
  destruct (export_dataset_run scene fs fs' dirpath format Hne Hmk)
    as (st & Hrun & _ & _ & _ & Hactive).
  apply sorted_cameras_all_ok in Hz.
  rewrite (rendered_prefix_all _ Hz) in Hactive.
  destruct (last (sorted_cameras scene)) as [[ref cam]|] eqn:Hlast.
  - exists ref, cam. split; [done|]. rewrite Hrun. exact Hactive.
  - apply last_None in Hlast.
    pose proof (sorted_cameras_length scene) as Hlen.
    rewrite Hlast in Hlen. simpl in Hlen.
    destruct (select_cameras 0 (objects scene)); [done|discriminate].
Qed.

(** ** Saved files and the records of the model *)

Lemma string_length_append (s t : string) :
  String.length (s ++ t) = (String.length s + String.length t)%nat.
Proof.
  induction s as [|a s IH]; [reflexivity|].
  change (String a s ++ t) with (String a (s ++ t)). simpl. now rewrite IH.
Qed.

Lemma string_append_inj_r (t s1 s2 : string) : s1 ++ t = s2 ++ t -> s1 = s2.
Proof.
  revert s2. induction s1 as [|a1 s1 IH]; intros [|a2 s2] Heq; [done| | |].
  - apply (f_equal String.length) in Heq.
    rewrite !string_length_append in Heq. simpl in Heq. lia.
  - apply (f_equal String.length) in Heq.
    rewrite !string_length_append in Heq. simpl in Heq. lia.
  - change (String a1 (s1 ++ t) = String a2 (s2 ++ t)) in Heq.
    injection Heq as -> Heq. f_equal. now apply IH.
Qed.

Lemma saved_paths_complete (scene : Scene F) (fs fs' : FS) (dirpath : Path)
    (format : string) :
  select_cameras 0 (objects scene) <> [] ->
  sensors_nonzero scene ->
  mkdir dirpath fs = inr fs' ->
  saved_paths (trace (export_dataset scene fs dirpath format)) =
  (fun cam : nat * BObject F =>
     path_join (path_join dirpath "images") (name_full (snd cam) ++ ".jpg"))
    <$> sorted_cameras scene.
Proof.
  intros Hne Hz Hmk.
  destruct (export_dataset_ok scene fs fs' dirpath format Hne Hz Hmk)
    as (st & Hrun & _).
  rewrite Hrun. simpl. rewrite saved_paths_app, saved_paths_loop_events. simpl.
  rewrite app_nil_r. unfold enumerate.
  rewrite <- (enumerate_from_snd (sorted_cameras scene) 0) at 2.
  now rewrite <- list_fmap_compose.
Qed.



(** X8.  In the model a run hands to [write_model], every image is stored
    under its own id, has that id as camera id too, four rotation and three
    translation components and no observations, and the camera it refers to
    is in the model under that id, an ["OPENCV"] camera of the render width
    and height with eight parameters. *)
Theorem model_is_consistent (scene : Scene F) (fs fs' : FS) (dirpath : Path)
    (format : string) :
  select_cameras 0 (objects scene) <> [] ->
  sensors_nonzero scene ->
  mkdir dirpath fs = inr fs' ->
  exists cams imgs,
    model_writes (trace (export_dataset scene fs dirpath format)) =
      [(cams, imgs, ∅, dirpath, output_format format)] /\
    (forall (k : Z) (img : Image F),
       imgs !! k = Some img ->
       i_id img = k /\
       i_camera_id img = k /\
       length (i_qvec img) = 4%nat /\
       length (i_tvec img) = 3%nat /\
       i_xys img = [] /\
       i_point3D_ids img = [] /\
       exists c,
         cams !! i_camera_id img = Some c /\
         c_id c = k /\
         c_model c = "OPENCV" /\
         c_width c = resolution_x (render scene) /\
         c_height c = resolution_y (render scene) /\
         length (c_params c) = 8%nat).
Proof.
  intros Hne Hz Hmk.
  destruct (export_dataset_writes scene fs fs' dirpath format Hne Hz Hmk)
    as (cams & imgs & Hw & _ & Hin & Hout).
  exists cams, imgs. split; [exact Hw|].
  intros k img Himg.
  destruct (decide (0 < k <= Z.of_nat (length (select_cameras 0 (objects scene)))))
    as [Hk|Hk]; [|destruct (Hout k Hk) as [_ Hnone]; congruence].
  destruct (lookup_lt_is_Some_2 (sorted_cameras scene) (Z.to_nat (k - 1)))
    as [[ref cam] Hcam]; [rewrite sorted_cameras_length; lia|].
  destruct (Hin _ ref cam Hcam) as [Hc Him].
  replace (Z.of_nat (Z.to_nat (k - 1)) + 1) with k in Hc, Him by lia.
  rewrite Himg in Him. injection Him as ->.
  simpl. repeat split; try lia.
  exists (camera_record (render scene) (Z.of_nat (Z.to_nat (k - 1))) cam).
  replace (Z.of_nat (Z.to_nat (k - 1)) + 1) with k by lia.
  split; [exact Hc|]. simpl. repeat split; lia.
Qed.

(** ** What the model depends on *)

Lemma insert_sorted_fmap {A B : Type} (f : A -> B) (key : B -> string)
    (x : A) (l : list A) :
  f <$> insert_sorted (fun a => key (f a)) x l = insert_sorted key (f x) (f <$> l).
Proof.
  induction l as [|y l IH]; csimpl; [done|].
  destruct (String.leb (key (f x)) (key (f y))); csimpl; [done|]. now rewrite IH.
Qed.

Lemma sorted_fmap {A B : Type} (f : A -> B) (key : B -> string) (l : list A) :
  f <$> sorted (fun a => key (f a)) l = sorted key (f <$> l).
Proof.
  unfold sorted. induction l as [|x l IH]; csimpl; [done|].
  now rewrite insert_sorted_fmap, IH.
Qed.

Lemma NoDup_fmap_eq {A B : Type} (f : A -> B) (l : list A) (x y : A) :
  NoDup (f <$> l) -> x ∈ l -> y ∈ l -> f x = f y -> x = y.
Proof.
  intros Hnd Hx Hy Heq.
  apply list_elem_of_lookup in Hx as [i Hi]. apply list_elem_of_lookup in Hy as [j Hj].
  assert (Hij : i = j).
  { apply (NoDup_lookup (f <$> l) i j (f x)); [exact Hnd| |].
    - now rewrite list_lookup_fmap, Hi.
    - now rewrite list_lookup_fmap, Hj, Heq. }
  subst j. congruence.
Qed.

(** The objects of the selection in the loop's order depend on the
    selected objects only, not on where they stand in the scene, when their
    names differ. *)
Lemma sorted_objects_unique (s1 s2 : Scene F) :
  snd <$> select_cameras 0 (objects s1) ≡ₚ snd <$> select_cameras 0 (objects s2) ->
  NoDup (name_full <$> (snd <$> select_cameras 0 (objects s1))) ->
  snd <$> sorted_cameras s1 = snd <$> sorted_cameras s2.
Proof.
  intros Hperm Hnd. unfold sorted_cameras.
  assert (Hs : forall l : list (nat * BObject F),
            snd <$> sorted sort_key l =
            sorted (fun o : BObject F => name_full o ++ ".jpg") (snd <$> l))
    by (intros l; exact (sorted_fmap snd _ l)).
  rewrite !Hs.
  apply (StronglySorted_unique_strong
           (key_le (fun o : BObject F => name_full o ++ ".jpg"))).
  - intros x1 x2 Hx1 Hx2 H12 H21.
    rewrite sorted_Permutation in Hx1. rewrite sorted_Permutation, <- Hperm in Hx2.
    apply (NoDup_fmap_eq name_full _ x1 x2 Hnd Hx1 Hx2).
    apply (string_append_inj_r ".jpg"). now apply String.leb_antisym.
  - apply sorted_StronglySorted.
  - apply sorted_StronglySorted.
  - now rewrite !sorted_Permutation.
Qed.

(** X9.  The model depends on the selected cameras, not on the order of
    the scene's objects: two scenes with the same render settings whose
    selected cameras are the same objects in any order, all with different
    names, give [write_model] the same dictionaries. *)
Theorem model_independent_of_object_order (s1 s2 : Scene F) (fs fs' : FS)
    (dirpath : Path) (format : string) :
  snd <$> select_cameras 0 (objects s1) ≡ₚ snd <$> select_cameras 0 (objects s2) ->
  NoDup (name_full <$> (snd <$> select_cameras 0 (objects s1))) ->
  render s1 = render s2 ->
  select_cameras 0 (objects s1) <> [] ->
  sensors_nonzero s1 ->
  mkdir dirpath fs = inr fs' ->
  model_writes (trace (export_dataset s1 fs dirpath format)) =
  model_writes (trace (export_dataset s2 fs dirpath format)).
Proof.
  intros Hperm Hnd Hrender Hne1 Hz1 Hmk.
  pose proof (sorted_objects_unique s1 s2 Hperm Hnd) as Hsame.
  assert (Hlen : length (select_cameras 0 (objects s1)) =
                 length (select_cameras 0 (objects s2))).
  { apply Permutation_length in Hperm. now rewrite !length_fmap in Hperm. }
  assert (Hne2 : select_cameras 0 (objects s2) <> []).
  { intros Hnil. rewrite Hnil in Hlen.
    destruct (select_cameras 0 (objects s1)); [done|discriminate]. }
  assert (Hz2 : sensors_nonzero s2).
  { unfold sensors_nonzero in *.
    apply (Forall_fmap snd
             (fun o : BObject F =>
                f_is_zero (sensor_width (data o)) = false /\
                f_is_zero (sensor_height (data o)) = false)).
    rewrite <- Hperm. now apply Forall_fmap. }
  destruct (export_dataset_writes s1 fs fs' dirpath format Hne1 Hz1 Hmk)
    as (cams1 & imgs1 & Hw1 & _ & Hin1 & Hout1).
  destruct (export_dataset_writes s2 fs fs' dirpath format Hne2 Hz2 Hmk)
    as (cams2 & imgs2 & Hw2 & _ & Hin2 & Hout2).
  rewrite Hw1, Hw2.
  assert (Hk : forall k : Z, cams1 !! k = cams2 !! k /\ imgs1 !! k = imgs2 !! k).
  { intros k.
    destruct (decide (0 < k <= Z.of_nat (length (select_cameras 0 (objects s1)))))
      as [Hin|Hout].
    - destruct (lookup_lt_is_Some_2 (sorted_cameras s1) (Z.to_nat (k - 1)))
        as [[r1 c1] Hc1]; [rewrite sorted_cameras_length; lia|].
      destruct (lookup_lt_is_Some_2 (sorted_cameras s2) (Z.to_nat (k - 1)))
        as [[r2 c2] Hc2]; [rewrite sorted_cameras_length; lia|].
      assert (Hc : c1 = c2).
      { pose proof (f_equal (fun l => l !! Z.to_nat (k - 1)) Hsame) as Hl.
        simpl in Hl. rewrite !list_lookup_fmap, Hc1, Hc2 in Hl. simpl in Hl.
        congruence. }
      subst c2.
      destruct (Hin1 _ r1 c1 Hc1) as [Ha1 Hb1].
      destruct (Hin2 _ r2 c1 Hc2) as [Ha2 Hb2].
      replace (Z.of_nat (Z.to_nat (k - 1)) + 1) with k in Ha1, Hb1, Ha2, Hb2 by lia.
      rewrite Ha1, Ha2, Hb1, Hb2, Hrender. done.
    - destruct (Hout1 k Hout) as [-> ->].
      rewrite Hlen in Hout. destruct (Hout2 k Hout) as [-> ->]. done. }
  assert (Hcams : cams1 = cams2) by (apply map_eq; intros k; apply Hk).
  assert (Himgs : imgs1 = imgs2) by (apply map_eq; intros k; apply Hk).
  now rewrite Hcams, Himgs.
Qed.

(** X10.  The format string reaches the extension handed to [write_model]
    and nothing else: two runs that differ in the format only raise alike,
    leave the same scene and file system, yield the same progress, save to
    the same files, and call [write_model] with the same dictionaries and
    directory. *)
Theorem format_only_sets_extension (scene : Scene F) (fs : FS) (dirpath : Path)
    (format1 format2 : string) :
  raised (export_dataset scene fs dirpath format1) =
    raised (export_dataset scene fs dirpath format2) /\
  final_scene (export_dataset scene fs dirpath format1) =
    final_scene (export_dataset scene fs dirpath format2) /\
  final_fs (export_dataset scene fs dirpath format1) =
    final_fs (export_dataset scene fs dirpath format2) /\
  yields (trace (export_dataset scene fs dirpath format1)) =
    yields (trace (export_dataset scene fs dirpath format2)) /\
  saved_paths (trace (export_dataset scene fs dirpath format1)) =
    saved_paths (trace (export_dataset scene fs dirpath format2)) /\
  without_ext <$> model_writes (trace (export_dataset scene fs dirpath format1)) =
    without_ext <$> model_writes (trace (export_dataset scene fs dirpath format2)).
Proof.
  unfold export_dataset.
  destruct (select_cameras 0 (objects scene)) as [|c cs]; [done|].
  destruct (mkdir dirpath fs) as [e|fs']; [done|].
  destruct (camera_loop _ _ _ _) as [[evs st] [e|]]; [done|].
  simpl. rewrite !yields_app, !saved_paths_app, !model_writes_app, !fmap_app.
  done.
Qed.

End Extras.

(** ** The operators *)

Section OperatorFacts.
Context {F : Type} `{FloatOps F} `{Mathutils F} `{Bpy F}.
Context (path_of_string : string -> Path).

Lemma progress_updates_app (tr1 tr2 : list (OperatorEvent F)) :
  progress_updates (tr1 ++ tr2) = (progress_updates tr1 ++ progress_updates tr2)%list.
Proof.
  induction tr1 as [|e tr1 IH]; simpl; [done|].
  destruct e; simpl; now rewrite ?IH.
Qed.

Lemma exported_app (tr1 tr2 : list (OperatorEvent F)) :
  exported (tr1 ++ tr2) = (exported tr1 ++ exported tr2)%list.
Proof.
  induction tr1 as [|e tr1 IH]; simpl; [done|].
  destruct e; simpl; now rewrite ?IH.
Qed.

Lemma progress_updates_drive (tr : list (Event F)) :
  progress_updates (drive tr) = yields tr.
Proof.
  induction tr as [|e tr IH]; simpl; [done|].
  destruct e; simpl; now rewrite ?IH.
Qed.

Lemma model_writes_exported_drive (tr : list (Event F)) :
  model_writes (exported (drive tr)) = model_writes tr.
Proof.
  induction tr as [|e tr IH]; simpl; [done|].
  destruct e; simpl; now rewrite ?IH.
Qed.

Lemma drive_no_end (tr : list (Event F)) : OProgressEnd ∉ drive tr.
Proof.
  induction tr as [|e tr IH]; simpl; [apply not_elem_of_nil|].
  apply not_elem_of_cons. split; [now destruct e|exact IH].
Qed.

(** The run behind an operator call on a directory that exists: the
    directory is not made again, and only a zero sensor side can raise. *)
Lemma export_in_existing_directory (scene : Scene F) (fs : FS) (dirpath : Path)
    (format : string) :
  is_dir fs dirpath = true ->
  final_fs (export_dataset scene fs dirpath format) = fs /\
  (raised (export_dataset scene fs dirpath format) = None <-> sensors_nonzero scene) /\
  (raised (export_dataset scene fs dirpath format) = None \/
   raised (export_dataset scene fs dirpath format) = Some ZeroDivisionError).
Proof.
  intros Hdir. pose proof (mkdir_existing fs dirpath Hdir) as Hmk.
  destruct (select_cameras 0 (objects scene)) as [|c cs] eqn:E.
  - unfold export_dataset, sensors_nonzero. rewrite E. simpl.
    split; [done|]. split; [|now left]. split; [constructor|done].
  - assert (Hne : select_cameras 0 (objects scene) <> []) by (rewrite E; discriminate).
    destruct (export_dataset_run scene fs fs dirpath format Hne Hmk)
      as (st & Hrun & _).
    rewrite Hrun. simpl. rewrite <- sorted_cameras_all_ok.
    split; [done|].
    destruct (forallb sensor_ok (sorted_cameras scene)).
    + split; [done|now left].
    + split; [split; discriminate|now right].
Qed.



(** X13.  An operator call on an existing directory opens the progress
    bar with [progress_begin(0, 100)], hands [progress_update] exactly the
    values the generator yields, in order, and calls [progress_end] last
    when the export completes; when the export raises, [progress_end] is
    never called. *)
Theorem operator_progress (self : Operator) (scene : Scene F) (fs : FS)
    (format : string) :
  is_dir fs (path_of_string (directory self)) = true ->
  (exists rest,
     op_trace (execute_ path_of_string self scene fs format) =
       OProgressBegin 0 100 :: rest) /\
  progress_updates (op_trace (execute_ path_of_string self scene fs format)) =
    yields (trace (export_dataset scene fs (path_of_string (directory self)) format)) /\
  (op_outcome (execute_ path_of_string self scene fs format) = Returned {["FINISHED"]} ->
   last (op_trace (execute_ path_of_string self scene fs format)) = Some OProgressEnd) /\
  (forall e : exn,
     op_outcome (execute_ path_of_string self scene fs format) = Raised e ->
     OProgressEnd ∉ op_trace (execute_ path_of_string self scene fs format)).
Proof.
  intros Hdir. unfold execute_. rewrite Hdir. simpl.
  destruct (raised (export_dataset scene fs _ format)) as [e|] eqn:Hr; simpl.
  - split; [eauto|]. split; [apply progress_updates_drive|].
    split; [discriminate|]. intros e' _.
    apply not_elem_of_cons. split; [discriminate|apply drive_no_end].
  - split; [eauto|]. split.
    + rewrite progress_updates_app, progress_updates_drive. simpl.
      now rewrite app_nil_r.
    + split; [|discriminate]. intros _.
      rewrite app_comm_cons. apply last_snoc.
Qed.

(** X14.  On an existing directory, with cameras selected and no zero
    sensor side, the binary operator and the text operator both return
    [{"FINISHED"}] and call [write_model] once with the same dictionaries
    and directory, the first with [".bin"], the second with [".txt"]. *)
Theorem binary_and_text_operators (self : Operator) (scene : Scene F) (fs : FS) :
  is_dir fs (path_of_string (directory self)) = true ->
  select_cameras 0 (objects scene) <> [] ->
  sensors_nonzero scene ->
  exists cams imgs,
    model_writes (exported (op_trace
      (BlenderExporterForColmapBinary_execute path_of_string self scene fs))) =
      [(cams, imgs, ∅, path_of_string (directory self), ".bin")] /\
    model_writes (exported (op_trace
      (BlenderExporterForColmapText_execute path_of_string self scene fs))) =
      [(cams, imgs, ∅, path_of_string (directory self), ".txt")] /\
    op_outcome (BlenderExporterForColmapBinary_execute path_of_string self scene fs) =
      Returned {["FINISHED"]} /\
    op_outcome (BlenderExporterForColmapText_execute path_of_string self scene fs) =
      Returned {["FINISHED"]}.
Proof.
  intros Hdir Hne Hz. pose proof (mkdir_existing fs _ Hdir) as Hmk.
  destruct (camera_loop_ok
              (Z.of_nat (length (select_cameras 0 (objects scene))))
              (path_join (path_of_string (directory self)) "images")
              (sorted_cameras scene) 0 (mkLoopState ∅ ∅ scene))
    as (st & Hloop & _).
  - rewrite sorted_cameras_Permutation. apply select_cameras_NoDup.
  - intros ref cam Hin. simpl. apply select_cameras_lookup.
    now rewrite <- sorted_cameras_Permutation.
  - unfold sensors_nonzero in Hz. now rewrite sorted_cameras_Permutation.
  - lia.
  - exists (cameras st), (images st).
    unfold BlenderExporterForColmapBinary_execute, BlenderExporterForColmapText_execute,
      execute_, export_dataset, sorted_cameras, enumerate in *.
    rewrite Hdir. simpl negb. cbv iota.
    destruct (select_cameras 0 (objects scene)) as [|c cs] eqn:E; [done|].
    rewrite Hmk, Hloop. simpl.
    rewrite !exported_app, !model_writes_app, !model_writes_exported_drive.
    rewrite !model_writes_app, !model_writes_loop_events. done.
Qed.

End OperatorFacts.

(** ** Registration *)

Section RegistrationFacts.
Context `{BpyUtils}.

Lemma register_menu (h h' : Host) :
  register h = inr h' ->
  file_export_menu h' =
    (file_export_menu h ++ ["_blender_export_operator_function"])%list.
Proof.
  unfold register.
  destruct (register_class _ _) as [e|c1]; [discriminate|].
  destruct (register_class _ _) as [e|c2]; [discriminate|].
  intros Heq. injection Heq as <-. reflexivity.
Qed.

Lemma unregister_menu (h h' : Host) :
  unregister h = inr h' -> file_export_menu h' = file_export_menu h.
Proof.
  unfold unregister.
  destruct (unregister_class _ _) as [e|c1]; [discriminate|].
  destruct (unregister_class _ _) as [e|c2]; [discriminate|].
  intros Heq. injection Heq as <-. reflexivity.
Qed.

(** X15.  [unregister] does not take the menu entry of [register] back:
    whatever the host's class registry does, after [n] rounds of [register]
    and [unregister] that raise nothing the export menu has [n] more
    entries than before, all of them the exporter's. *)
Theorem menu_entries_accumulate (n : nat) (h h' : Host) :
  reload n h = inr h' ->
  file_export_menu h' =
    (file_export_menu h ++ replicate n "_blender_export_operator_function")%list.
Proof.
  revert h. induction n as [|n IH]; intros h; simpl.
  - intros Heq. injection Heq as <-. now rewrite app_nil_r.
  - destruct (register h) as [e|h1] eqn:Hreg; [discriminate|].
    destruct (unregister h1) as [e|h2] eqn:Hunreg; [discriminate|].
    intros Hrest. rewrite (IH h2 Hrest).
    rewrite (unregister_menu h1 h2 Hunreg), (register_menu h h1 Hreg).
    now rewrite <- app_assoc.
Qed.

End RegistrationFacts.

(** ** The further properties at the scenarios *)



Lemma objects_after_export_witness :
  objects (final_scene run_A_binary64) !! 0%nat =
    Some (set_rotation_mode "QUATERNION"
            (set_rotation_mode "QUATERNION" (scenario_camera "B"))).
Proof.
  apply (objects_after_export (F := float) scenario_A ∅ fs_A ["out"; "tmp"] ".bin"
           0%nat (scenario_camera "B")).
  - vm_compute. reflexivity.
  - unfold sensors_nonzero. vm_compute. repeat constructor.
  - reflexivity.
Defined.

Lemma last_camera_stays_active_witness :
  exists ref cam,
    last (sorted_cameras (scenario_A (F := float))) = Some (ref, cam) /\
    camera (final_scene run_A_binary64) = Some ref.
Proof.
  apply (last_camera_stays_active (F := float) scenario_A ∅ fs_A ["out"; "tmp"] ".bin").
  - vm_compute. discriminate.
  - unfold sensors_nonzero. vm_compute. repeat constructor.
  - vm_compute. reflexivity.
Defined.



Lemma model_is_consistent_witness :
  exists cams imgs,
    model_writes (trace run_A_binary64) =
      [(cams, imgs, ∅, ["out"; "tmp"], output_format ".bin")] /\
    (forall (k : Z) (img : Image float),
       imgs !! k = Some img ->
       i_id img = k /\
       i_camera_id img = k /\
       length (i_qvec img) = 4%nat /\
       length (i_tvec img) = 3%nat /\
       i_xys img = [] /\
       i_point3D_ids img = [] /\
       exists c,
         cams !! i_camera_id img = Some c /\
         c_id c = k /\
         c_model c = "OPENCV" /\
         c_width c = resolution_x (render (scenario_A (F := float))) /\
         c_height c = resolution_y (render (scenario_A (F := float))) /\
         length (c_params c) = 8%nat).
Proof.
  apply (model_is_consistent (F := float) scenario_A ∅ fs_A ["out"; "tmp"] ".bin").
  - vm_compute. discriminate.
  - unfold sensors_nonzero. vm_compute. repeat constructor.
  - vm_compute. reflexivity.
Defined.

Lemma model_independent_of_object_order_witness :
  model_writes (trace run_A_binary64) =
  model_writes (trace (export_dataset (F := float) scenario_A_reversed ∅
                         ["out"; "tmp"] ".bin")).
Proof.
  apply (model_independent_of_object_order (F := float) scenario_A scenario_A_reversed
           ∅ fs_A ["out"; "tmp"] ".bin").
  - vm_compute. apply perm_swap.
  - apply (bool_decide_unpack _). vm_compute. reflexivity.
  - reflexivity.
  - vm_compute. discriminate.
  - unfold sensors_nonzero. vm_compute. repeat constructor.
  - vm_compute. reflexivity.
Defined.


Lemma operator_progress_witness :
  progress_updates
    (op_trace (execute_ (F := float) posix_path (mkOperator "/tmp/out")
                 scenario_A fs_A ".bin")) =
  yields (trace (export_dataset (F := float) scenario_A fs_A ["out"; "tmp"] ".bin")).
Proof.
  destruct (operator_progress (F := float) posix_path (mkOperator "/tmp/out")
              scenario_A fs_A ".bin") as (_ & Hupd & _); [vm_compute; reflexivity|].
  exact Hupd.
Defined.

Lemma binary_and_text_operators_witness :
  exists cams imgs,
    model_writes (exported (op_trace
      (BlenderExporterForColmapBinary_execute (F := float) posix_path
         (mkOperator "/tmp/out") scenario_A fs_A))) =
      [(cams, imgs, ∅, ["out"; "tmp"], ".bin")] /\
    model_writes (exported (op_trace
      (BlenderExporterForColmapText_execute (F := float) posix_path
         (mkOperator "/tmp/out") scenario_A fs_A))) =
      [(cams, imgs, ∅, ["out"; "tmp"], ".txt")].
Proof.
  destruct (binary_and_text_operators (F := float) posix_path (mkOperator "/tmp/out")
              scenario_A fs_A) as (cams & imgs & Hb & Ht & _).
  - vm_compute. reflexivity.
  - vm_compute. discriminate.
  - unfold sensors_nonzero. vm_compute. repeat constructor.
  - exists cams, imgs. split; [exact Hb|exact Ht].
Defined.

Lemma menu_entries_accumulate_witness :
  exists h' : @Host set_registry,
    reload 3 (@mkHost set_registry ∅ ["other_exporter"]) = inr h' /\
    file_export_menu h' =
      ["other_exporter"; "_blender_export_operator_function";
       "_blender_export_operator_function"; "_blender_export_operator_function"].
Proof.
  eexists. split; [vm_compute; reflexivity|].
  apply (menu_entries_accumulate 3 (@mkHost set_registry ∅ ["other_exporter"])).
  vm_compute. reflexivity.
Defined.
